(** * MetabolicGrimoire: the hypercube maze engine

    A shallow embedding of the two engine scripts of the repository:
    - the extended engine, [src/hc-2.js] (turn counter, time-shifting traps,
      visited memory as a [Map], 3D slice viewer), in [Module Extended];
    - the minimal engine, [src/unnamed/part_000] (static traps, visited
      memory as a [Set]), in [Module Minimal].

    JavaScript numbers are modelled by [Z]: every number the engine handles
    is an integer far below 2^53, where the double-precision operations used
    ([+], [*], [/] followed by [Math.floor], [%], [Math.sqrt] compared with
    an integer) agree with their exact integer counterparts.  [%] is the
    truncating remainder [Z.rem]; [Math.floor (a / b)] is [Z.div]. *)

From Stdlib Require Import ZArith Zdivisibility Lia Ascii String.
From stdpp Require Import base numbers list strings pretty gmap.

Local Open Scope Z_scope.

(** ** Secure random ([secureRandomInt], identical in both scripts) *)

(** A [Uint32Array] cell holds its value modulo 2^32. *)
Definition uint32 (v : Z) : Z := v mod 2 ^ 32.

Definition maxUint32 : Z := 0xFFFFFFFF.

(** [const limit = Math.floor(maxUint32 / max) * max] *)
Definition limit (max : Z) : Z := (maxUint32 / max) * max.

(** One iteration of the [while (true)] body on the value that
    [crypto.getRandomValues] stored: [Some r] is [return r], [None] goes
    round the loop again. *)
Definition sampleOnce (max : Z) (draw : Z) : option Z :=
  if bool_decide (uint32 draw < limit max) then Some (Z.rem (uint32 draw) max)
  else None.

(** The entropy source is the list of values that successive calls of
    [crypto.getRandomValues] deliver.  The loop consumes draws until one is
    accepted; the result comes with the draws that are left.  [None]: every
    draw of the list was rejected (the loop is still running). *)
Fixpoint secureRandomInt (max : Z) (draws : list Z) : option (Z * list Z) :=
  match draws with
  | [] => None
  | d :: rest =>
      match sampleOnce max d with
      | Some r => Some (r, rest)
      | None => secureRandomInt max rest
      end
  end.

(** ** Coordinates (identical in both scripts) *)

Record coord : Set := Coord { x : Z; y : Z; z : Z; w : Z }.

Global Instance coord_eq_dec : EqDecision coord.
Proof. solve_decision. Defined.

(** [getCenter()], as a function of [this.size] *)
Definition getCenter (size : Z) : coord :=
  let mid := size / 2 in
  {| x := mid; y := mid; z := mid; w := mid |}.

(** [randomStart()]: four draws, in the order x, y, z, w *)
Definition randomStart (size : Z) (draws : list Z) : option (coord * list Z) :=
  '(cx, d1) ← secureRandomInt size draws;
  '(cy, d2) ← secureRandomInt size d1;
  '(cz, d3) ← secureRandomInt size d2;
  '(cw, d4) ← secureRandomInt size d3;
  Some ({| x := cx; y := cy; z := cz; w := cw |}, d4).

(** [key(c)] / [coordinateKey(c)]: the template literal
    [`${c.x},${c.y},${c.z},${c.w}`]; an integer prints in decimal. *)
Definition key (c : coord) : string :=
  pretty (x c) +:+ "," +:+ pretty (y c) +:+ "," +:+ pretty (z c) +:+ ","
  +:+ pretty (w c).

(** Property access [c[a]] for the four axis names. *)
Definition getAxis (c : coord) (a : string) : Z :=
  if String.eqb a "x" then x c
  else if String.eqb a "y" then y c
  else if String.eqb a "z" then z c
  else w c.

(** [isInside(c)] as a function of [this.size] *)
Definition isInside (size : Z) (c : coord) : bool :=
  forallb (fun a => (0 <=? getAxis c a) && (getAxis c a <? size))
          ["x"; "y"; "z"; "w"]%string.

(** [isPrime(n)]: the loop runs [i] over 2, 3, ... while [i <= Math.sqrt(n)],
    that is over the integers from 2 to the integer square root of [n], and
    returns [false] at the first [i] with [n % i === 0]. *)
Definition isPrime (n : Z) : bool :=
  if n <? 2 then false
  else forallb (fun i => negb (Z.rem n i =? 0)) (seqZ 2 (Z.sqrt n - 1)).

(** [isExit(c)] as a function of [this.exit] *)
Definition isExit (exit c : coord) : bool :=
  (x c =? x exit) && (y c =? y exit) && (z c =? z exit) && (w c =? w exit).

(** ** The direction table of [move]

    [deltas] is an object literal, so [deltas[dir]] first looks among its
    eight own properties and then along the prototype chain, which for an
    object literal is [Object.prototype].  A value found there is a function
    or an object (truthy) without enumerable properties; any other name gives
    [undefined].  A found value is represented by the list of its enumerable
    properties, the ones [for (let axis in deltas[dir])] runs over. *)

Definition deltasOwn : list (string * list (string * Z)) :=
  [ ("xp", [("x", 1)]); ("xn", [("x", -1)]);
    ("yp", [("y", 1)]); ("yn", [("y", -1)]);
    ("zp", [("z", 1)]); ("zn", [("z", -1)]);
    ("wp", [("w", 1)]); ("wn", [("w", -1)]) ]%string.

Definition objectPrototype : list string :=
  [ "constructor"; "__defineGetter__"; "__defineSetter__"; "hasOwnProperty";
    "__lookupGetter__"; "__lookupSetter__"; "isPrototypeOf";
    "propertyIsEnumerable"; "toString"; "valueOf"; "__proto__";
    "toLocaleString" ]%string.

Fixpoint ownProperty {A} (name : string) (props : list (string * A)) : option A :=
  match props with
  | [] => None
  | (k, v) :: rest => if String.eqb name k then Some v else ownProperty name rest
  end.

(** [deltas[dir]]: [None] is [undefined]. *)
Definition deltas (dir : string) : option (list (string * Z)) :=
  match ownProperty dir deltasOwn with
  | Some d => Some d
  | None => if existsb (String.eqb dir) objectPrototype then Some [] else None
  end.

(** [next[axis] += v] *)
Definition addAxis (c : coord) (axis : string) (v : Z) : coord :=
  if String.eqb axis "x" then {| x := x c + v; y := y c; z := z c; w := w c |}
  else if String.eqb axis "y" then {| x := x c; y := y c + v; z := z c; w := w c |}
  else if String.eqb axis "z" then {| x := x c; y := y c; z := z c + v; w := w c |}
  else if String.eqb axis "w" then {| x := x c; y := y c; z := z c; w := w c + v |}
  else c.

(** [const next = { ...this.position }; for (let axis in d) next[axis] += d[axis]] *)
Definition shifted (pos : coord) (d : list (string * Z)) : coord :=
  fold_left (fun c '(axis, v) => addAxis c axis v) d pos.

(** ** The extended engine ([src/hc-2.js]) *)

Module Extended.

(** A record of the visited memory: [{ trap, turn }]. *)
Record visit : Set := Visit { visit_trap : bool; visit_turn : Z }.

(** The fields of [class Hypercube], in the order the constructor
    assigns them. *)
Record Hypercube : Type := Build {
  size : Z;
  turn : Z;
  exit : coord;
  position : coord;
  visited : gmap string visit
}.

(** What [move] returns: [{ error }] or [{ position, trap, exit, turn }]. *)
Inductive result : Type :=
| Error (error : string)
| Moved (position : coord) (trap : bool) (exit : bool) (turn : Z).

(** [constructor(size = 4)] *)
Definition new (size : Z) (draws : list Z) : option (Hypercube * list Z) :=
  '(start, rest) ← randomStart size draws;
  Some ({| size := size; turn := 0; exit := getCenter size;
           position := start; visited := ∅ |}, rest).

(** [isTrap(c)]: time-shifting traps *)
Definition isTrap (h : Hypercube) (c : coord) : bool :=
  let val := x c * 7 + y c * 11 + z c * 13 + w c * 17 + turn h * 19 in
  isPrime (Z.rem val 97).

(** [move(dir)]: the result and the engine after the call. *)
Definition move (dir : string) (h : Hypercube) : result * Hypercube :=
  match deltas dir with
  | None => (Error "Invalid direction.", h)
  | Some d =>
      let next := shifted (position h) d in
      if negb (isInside (size h) next) then
        (Error "You hit the boundary wall.", h)
      else
        let h1 := {| size := size h; turn := turn h + 1; exit := exit h;
                     position := position h; visited := visited h |} in
        let h2 := {| size := size h1; turn := turn h1; exit := exit h1;
                     position := next; visited := visited h1 |} in
        let trap := isTrap h2 next in
        let h3 := {| size := size h2; turn := turn h2; exit := exit h2;
                     position := position h2;
                     visited := <[key next := Visit trap (turn h2)]> (visited h2) |} in
        (Moved (position h3) trap (isExit (exit h3) next) (turn h3), h3)
  end.

(** The engine after a sequence of [move] calls. *)
Definition run (dirs : list string) (h : Hypercube) : Hypercube :=
  fold_left (fun h dir => snd (move dir h)) dirs h.

(** *** The slice viewer

    [renderSlice] writes to the console and reads the engine; the world it
    runs in holds both. *)
Record World : Type := { cube : Hypercube; console : list string }.

(** [console.log(line)] *)
Definition log (line : string) (wd : World) : World :=
  {| cube := cube wd; console := console wd ++ [line] |}.

Definition newline : string := String "010"%char "".

(** The body of the innermost loop: what is appended to [row] for the
    cell [(x, y, z, wLevel)]. *)
Definition marker (h : Hypercube) (wLevel cx cy cz : Z) : string :=
  let coord := {| x := cx; y := cy; z := cz; w := wLevel |} in
  let k := key coord in
  if (x (position h) =? cx) && (y (position h) =? cy)
     && (z (position h) =? cz) && (w (position h) =? wLevel)
  then " P "
  else if isExit (exit h) coord then " E "
  else match visited h !! k with
       | Some v => if visit_trap v then " X " else " . "
       | None => " ? "
       end.

(** [renderSlice()] *)
Definition renderSlice (wd : World) : World :=
  let wLevel := w (position (cube wd)) in
  let wd := log (newline +:+ "🧊 3D Slice at W = " +:+ pretty wLevel) wd in
  let wd := log ("Z increases downward. X increases right. Y layers separated."
                 +:+ newline) wd in
  let wd :=
    fold_left (fun wd cy =>
      let wd := log ("--- Y = " +:+ pretty cy +:+ " ---") wd in
      let wd :=
        fold_left (fun wd cz =>
          let row :=
            fold_left (fun row cx => row +:+ marker (cube wd) wLevel cx cy cz)
                      (seqZ 0 (size (cube wd))) ""%string in
          log row wd)
        (seqZ 0 (size (cube wd))) wd in
      log "" wd)
    (seqZ 0 (size (cube wd))) wd in
  let wd := log "Legend:" wd in
  let wd := log " P = You" wd in
  let wd := log " E = Exit (center)" wd in
  let wd := log " X = Known trap (when discovered)" wd in
  let wd := log " . = Known safe" wd in
  log " ? = Unvisited (unknown)" wd.

End Extended.

(** ** The minimal engine ([src/unnamed/part_000]) *)

Module Minimal.

Record Hypercube : Type := Build {
  size : Z;
  visited : gset string;
  exit : coord;
  position : coord
}.

(** What [move] returns: [{ error }] or [{ position, trap, exit }]. *)
Inductive result : Type :=
| Error (error : string)
| Moved (position : coord) (trap : bool) (exit : bool).

(** [constructor(size = 5)] *)
Definition new (size : Z) (draws : list Z) : option (Hypercube * list Z) :=
  '(start, rest) ← randomStart size draws;
  Some ({| size := size; visited := ∅; exit := getCenter size;
           position := start |}, rest).

(** [isTrap(c)] *)
Definition isTrap (c : coord) : bool :=
  let sum := x c + y c + z c + w c in
  isPrime sum.

(** [move(dir)]: the result and the engine after the call. *)
Definition move (dir : string) (h : Hypercube) : result * Hypercube :=
  match deltas dir with
  | None => (Error "Invalid direction.", h)
  | Some d =>
      let newPos := shifted (position h) d in
      if negb (isInside (size h) newPos) then
        (Error "You hit a wall of the hypercube.", h)
      else
        let h1 := {| size := size h; visited := visited h; exit := exit h;
                     position := newPos |} in
        let h2 := {| size := size h1; visited := {[ key newPos ]} ∪ visited h1;
                     exit := exit h1; position := position h1 |} in
        (Moved (position h2) (isTrap newPos) (isExit (exit h2) newPos), h2)
  end.

Definition run (dirs : list string) (h : Hypercube) : Hypercube :=
  fold_left (fun h dir => snd (move dir h)) dirs h.

End Minimal.

(** ** The command line of the extended script ([src/hc-2.js], CLI)

    A session is the engine, the console and whether the process is still
    running.  [console.log] with one string records that string; with a
    string and a second string it records both separated by a space; with a
    string and the position object it records the string and the object, the
    way the object is printed being left to the runtime.  The iteration
    order of the [Map] [this.visited] (keys in the order of their first
    insertion) is kept beside the engine, in [order]. *)

Module ExtendedCli.

Inductive logged : Type :=
| Text (line : string)
| TextAndPosition (label : string) (position : coord).

(** [process.exit(0)] ends the session. *)
Inductive process : Set := Running | Exited.

Record Session : Type := {
  cube : Extended.Hypercube;
  order : list string;
  console : list logged;
  status : process
}.

Definition log (entry : logged) (s : Session) : Session :=
  {| cube := cube s; order := order s; console := console s ++ [entry];
     status := status s |}.

Definition processExit (s : Session) : Session :=
  {| cube := cube s; order := order s; console := console s;
     status := Exited |}.

(** [cube.printHelp()] *)
Definition printHelp (s : Session) : Session :=
  let s := log (Text (Extended.newline +:+ "Movement Commands:")) s in
  let s := log (Text " xp → +X (right)") s in
  let s := log (Text " xn → -X (left)") s in
  let s := log (Text " yp → +Y (forward layer)") s in
  let s := log (Text " yn → -Y (back layer)") s in
  let s := log (Text " zp → +Z (down)") s in
  let s := log (Text " zn → -Z (up)") s in
  let s := log (Text " wp → +W (next 3D slice)") s in
  let s := log (Text " wn → -W (previous 3D slice)") s in
  let s := log (Text (Extended.newline +:+ "Other Commands:")) s in
  let s := log (Text " map → show visited memory") s in
  let s := log (Text " view → render 3D slice") s in
  let s := log (Text " help → show commands") s in
  log (Text (" exit → quit" +:+ Extended.newline)) s.

(** [cube.renderSlice()], run on the engine of the session; its lines go to
    the console of the session. *)
Definition renderSlice (s : Session) : Session :=
  let wd := Extended.renderSlice
              {| Extended.cube := cube s; Extended.console := [] |} in
  {| cube := Extended.cube wd; order := order s;
     console := console s ++ map Text (Extended.console wd);
     status := status s |}.

(** The line [printMemory] prints for an entry of the map. *)
Definition memoryLine (coord : string) (data : Extended.visit) : string :=
  " " +:+ coord +:+ " → "
  +:+ (if Extended.visit_trap data then "💀 trap" else "safe")
  +:+ " (turn " +:+ pretty (Extended.visit_turn data) +:+ ")".

(** [cube.printMemory()]: the entries in the iteration order of the map. *)
Definition printMemory (s : Session) : Session :=
  let s := log (Text (Extended.newline +:+ "🌫 Memory:")) s in
  fold_left (fun s coord =>
               match Extended.visited (cube s) !! coord with
               | Some data => log (Text (memoryLine coord data)) s
               | None => s
               end)
            (order s) s.

(** [cube.move(cmd)] on the engine of the session; a key set for the first
    time goes to the end of the iteration order, a key set again keeps its
    place. *)
Definition move (cmd : string) (s : Session) : Extended.result * Session :=
  let '(result, h) := Extended.move cmd (cube s) in
  let order' :=
    match result with
    | Extended.Error _ => order s
    | Extended.Moved p _ _ _ =>
        if decide (is_Some (Extended.visited (cube s) !! key p)) then order s
        else order s ++ [key p]
    end in
  (result, {| cube := h; order := order'; console := console s;
              status := status s |}).

(** The callback of [rl.question], from its second statement on: [cmd] is
    the line read after [cmd = cmd.trim()]. *)
Definition respond (cmd : string) (s : Session) : Session :=
  if String.eqb cmd "exit" then processExit s
  else if String.eqb cmd "help" then printHelp s
  else if String.eqb cmd "view" then renderSlice s
  else if String.eqb cmd "map" then printMemory s
  else
    let '(result, s) := move cmd s in
    match result with
    | Extended.Error error => log (Text ("⚠️ " +:+ error)) s
    | Extended.Moved position trap exit turn =>
        let s := log (Text (Extended.newline +:+ "⏳ Turn " +:+ pretty turn)) s in
        let s := log (TextAndPosition "📍 Position:" position) s in
        if trap then
          processExit (log (Text "💀 The room shifted into a lethal state.") s)
        else if exit then
          processExit (log (Text "🚪 You found the exit at the center!") s)
        else renderSlice s
    end.

(** [prompt()] over the trimmed lines the user types, one call of the
    callback per line while the process runs. *)
Fixpoint prompt (cmds : list string) (s : Session) : Session :=
  match cmds with
  | [] => s
  | cmd :: rest =>
      match status s with
      | Exited => s
      | Running => prompt rest (respond cmd s)
      end
  end.

(** The script: [new Hypercube(4)], the greeting, the help, the first slice,
    then the prompt.  [None]: the constructor has not got its four draws. *)
Definition main (draws : list Z) (cmds : list string) : option Session :=
  '(h, _) ← Extended.new 4 draws;
  let s := {| cube := h; order := []; console := []; status := Running |} in
  let s := log (Text (Extended.newline
                      +:+ "🔲 You awaken inside a shifting hypercube.")) s in
  let s := printHelp s in
  let s := renderSlice s in
  Some (prompt cmds s).

End ExtendedCli.

(** ** The command line of the minimal script ([src/unnamed/part_000], CLI)

    The callback compares the line as read with "exit" and passes the
    trimmed line to [move]; [String.prototype.trim] is a parameter of the
    model. *)

Module MinimalCli.

Inductive logged : Type :=
| Text (line : string)
| TextAndPosition (label : string) (position : coord).

Inductive process : Set := Running | Exited.

Record Session : Type := {
  cube : Minimal.Hypercube;
  console : list logged;
  status : process
}.

Definition log (entry : logged) (s : Session) : Session :=
  {| cube := cube s; console := console s ++ [entry]; status := status s |}.

Definition processExit (s : Session) : Session :=
  {| cube := cube s; console := console s; status := Exited |}.

Section Prompt.
Variable trim : string -> string.

(** The callback of [rl.question]. *)
Definition respond (input : string) (s : Session) : Session :=
  if String.eqb input "exit" then
    processExit (log (Text "You surrender to the maze.") s)
  else
    let '(result, h) := Minimal.move (trim input) (cube s) in
    let s := {| cube := h; console := console s; status := status s |} in
    match result with
    | Minimal.Error error => log (Text ("⚠️ " +:+ error)) s
    | Minimal.Moved position trap exit =>
        let s := log (TextAndPosition "📍 Position:" position) s in
        if trap then
          processExit
            (log (Text "💀 The room was trapped. You did not survive.") s)
        else if exit then
          processExit
            (log (Text "🚪 You found the exit at the center of the hypercube!") s)
        else s
    end.

(** [prompt()] over the lines the user types. *)
Fixpoint prompt (inputs : list string) (s : Session) : Session :=
  match inputs with
  | [] => s
  | input :: rest =>
      match status s with
      | Exited => s
      | Running => prompt rest (respond input s)
      end
  end.

(** The script: [new Hypercube(5)], the greeting, the starting position,
    then the prompt. *)
Definition main (draws : list Z) (inputs : list string) : option Session :=
  '(h, _) ← Minimal.new 5 draws;
  let s := {| cube := h; console := []; status := Running |} in
  let s := log (Text (Extended.newline
                      +:+ "🔲 You awaken inside a shifting hypercube...")) s in
  let s := log (Text "Type: xp xn yp yn zp zn wp wn") s in
  let s := log (Text ("Type: exit to quit" +:+ Extended.newline)) s in
  let s := log (TextAndPosition "Starting position:" (Minimal.position (cube s))) s in
  Some (prompt inputs s).

End Prompt.

End MinimalCli.

(** * Definitions used to state the properties *)

(** The threshold as the specification words it, with 2^32 where the script
    has [0xFFFFFFFF]. *)
Definition specLimit (max : Z) : Z := (2 ^ 32 / max) * max.

(** The eight tokens that are own properties of [deltas]. *)
Definition tokens : list string := map fst deltasOwn.

(** The candidate of a token differs from the position on one axis, by the
    step of the token. *)
Definition oneStep (old new : coord) : Prop :=
  exists v, (v = 1 \/ v = -1)
  /\ (new = {| x := x old + v; y := y old; z := z old; w := w old |}
      \/ new = {| x := x old; y := y old + v; z := z old; w := w old |}
      \/ new = {| x := x old; y := y old; z := z old + v; w := w old |}
      \/ new = {| x := x old; y := y old; z := z old; w := w old + v |}).

(** No comma among the characters of a string. *)
Fixpoint commaFree (s : string) : bool :=
  match s with
  | EmptyString => true
  | String c rest => negb (Ascii.eqb c ","%char) && commaFree rest
  end.

(** The engine a successful move of the extended engine leaves, for the
    candidate [next]. *)
Definition committed (h : Extended.Hypercube) (next : coord) : Extended.Hypercube :=
  {| Extended.size := Extended.size h;
     Extended.turn := Extended.turn h + 1;
     Extended.exit := Extended.exit h;
     Extended.position := next;
     Extended.visited :=
       <[key next :=
           Extended.Visit
             (isPrime (Z.rem (x next * 7 + y next * 11 + z next * 13
                              + w next * 17 + (Extended.turn h + 1) * 19) 97))
             (Extended.turn h + 1)]> (Extended.visited h) |}.

(** The classification of a cell as the specification words it. *)
Inductive cellClass : Set := Player | ExitCell | KnownTrap | KnownSafe | Unknown.

Definition glyph (k : cellClass) : string :=
  match k with
  | Player => " P "
  | ExitCell => " E "
  | KnownTrap => " X "
  | KnownSafe => " . "
  | Unknown => " ? "
  end.

(** Highest priority first: the player's coordinate; the fixed center; a
    coordinate of the visited memory, by its recorded trap flag; unknown. *)
Definition classify (h : Extended.Hypercube) (c : coord) : cellClass :=
  if decide (c = Extended.position h) then Player
  else if decide (c = getCenter (Extended.size h)) then ExitCell
  else match Extended.visited h !! key c with
       | Some v => if Extended.visit_trap v then KnownTrap else KnownSafe
       | None => Unknown
       end.

(** The lines of a slice, laid out by y-layer, then z-row, then x-column. *)
Definition sliceRow (h : Extended.Hypercube) (cy cz : Z) : string :=
  foldr (fun cx row =>
           glyph (classify h (Coord cx cy cz (w (Extended.position h)))) +:+ row)
        ""%string (seqZ 0 (Extended.size h)).

Definition sliceLayer (h : Extended.Hypercube) (cy : Z) : list string :=
  ("--- Y = " +:+ pretty cy +:+ " ---")
    :: map (sliceRow h cy) (seqZ 0 (Extended.size h)) ++ [""%string].

Definition sliceLines (h : Extended.Hypercube) : list string :=
  [ Extended.newline +:+ "🧊 3D Slice at W = "
      +:+ pretty (w (Extended.position h));
    "Z increases downward. X increases right. Y layers separated."
      +:+ Extended.newline ]
  ++ concat (map (sliceLayer h) (seqZ 0 (Extended.size h)))
  ++ [ "Legend:"; " P = You"; " E = Exit (center)";
       " X = Known trap (when discovered)"; " . = Known safe";
       " ? = Unvisited (unknown)" ]%string.

(** The draws of a list that are below the threshold of [max]. *)
Definition accepted (max : Z) (draws : list Z) : list Z :=
  filter (fun d => uint32 d < limit max) draws.

(** The token of the step back. *)
Definition opposite (dir : string) : string :=
  if String.eqb dir "xp" then "xn" else if String.eqb dir "xn" then "xp"
  else if String.eqb dir "yp" then "yn" else if String.eqb dir "yn" then "yp"
  else if String.eqb dir "zp" then "zn" else if String.eqb dir "zn" then "zp"
  else if String.eqb dir "wp" then "wn" else if String.eqb dir "wn" then "wp"
  else dir.

(** A record of the visited memory is truthful for an engine of grid size
    [size] at turn [turn]: its key is the key of a cell of the grid, its turn
    is one of the turns played, and its flag is the trap predicate of that
    cell at that turn. *)
Definition truthful (size turn : Z) (k : string) (v : Extended.visit) : Prop :=
  exists c,
    k = key c /\ isInside size c = true
    /\ 1 <= Extended.visit_turn v <= turn
    /\ Extended.visit_trap v
       = isPrime (Z.rem (x c * 7 + y c * 11 + z c * 13 + w c * 17
                         + Extended.visit_turn v * 19) 97).

(** The engine with its turn counter set to [t]. *)
Definition atTurn (t : Z) (h : Extended.Hypercube) : Extended.Hypercube :=
  {| Extended.size := Extended.size h; Extended.turn := t;
     Extended.exit := Extended.exit h; Extended.position := Extended.position h;
     Extended.visited := Extended.visited h |}.

(** The lines [renderSlice] prints for an engine. *)
Definition markerRow (h : Extended.Hypercube) (cy cz : Z) : string :=
  fold_left
    (fun row cx => row +:+ Extended.marker h (w (Extended.position h)) cx cy cz)
    (seqZ 0 (Extended.size h)) ""%string.

Definition markerLines (h : Extended.Hypercube) : list string :=
  [ Extended.newline +:+ "🧊 3D Slice at W = "
      +:+ pretty (w (Extended.position h));
    "Z increases downward. X increases right. Y layers separated."
      +:+ Extended.newline ]
  ++ concat (map (fun cy =>
                    ("--- Y = " +:+ pretty cy +:+ " ---")
                      :: map (markerRow h cy) (seqZ 0 (Extended.size h))
                      ++ [""%string])
                 (seqZ 0 (Extended.size h)))
  ++ [ "Legend:"; " P = You"; " E = Exit (center)";
       " X = Known trap (when discovered)"; " . = Known safe";
       " ? = Unvisited (unknown)" ]%string.

(** The commands the prompt of the extended script handles itself. *)
Definition keywords : list string := ["exit"; "help"; "view"; "map"]%string.

(** The three entries the prompt logs for a move into a trap. *)
Definition deathReport (position : coord) (turn : Z) : list ExtendedCli.logged :=
  [ ExtendedCli.Text (Extended.newline +:+ "⏳ Turn " +:+ pretty turn);
    ExtendedCli.TextAndPosition "📍 Position:" position;
    ExtendedCli.Text "💀 The room shifted into a lethal state." ].

(** [s'] is [s] with more entries logged: same engine, same iteration
    order, same process state. *)
Definition onlyLogs (s s' : ExtendedCli.Session) : Prop :=
  ExtendedCli.cube s' = ExtendedCli.cube s
  /\ ExtendedCli.order s' = ExtendedCli.order s
  /\ ExtendedCli.status s' = ExtendedCli.status s
  /\ exists entries, ExtendedCli.console s' = ExtendedCli.console s ++ entries.

(** What the prompt logs for a successful move: the turn, the position, and
    then the death line, or the exit line, or the slice of the new engine. *)
Definition moveReport (h' : Extended.Hypercube) (position : coord)
    (trap exit : bool) (turn : Z) : list ExtendedCli.logged :=
  [ ExtendedCli.Text (Extended.newline +:+ "⏳ Turn " +:+ pretty turn);
    ExtendedCli.TextAndPosition "📍 Position:" position ]
  ++ (if trap then
        [ ExtendedCli.Text "💀 The room shifted into a lethal state." ]
      else if exit then
        [ ExtendedCli.Text "🚪 You found the exit at the center!" ]
      else map ExtendedCli.Text (markerLines h')).

(** The iteration order of the map after [set] on the key of [p]. *)
Definition orderAfter (s : ExtendedCli.Session) (p : coord) : list string :=
  if decide (is_Some (Extended.visited (ExtendedCli.cube s) !! key p))
  then ExtendedCli.order s
  else ExtendedCli.order s ++ [key p].

(** What holds of every session of the extended script: the iteration
    order lists the keys of the visited memory, each once; and while the
    process runs, no record of the memory is a trap record and the exit cell
    has no record. *)
Definition sessionInvariant (s : ExtendedCli.Session) : Prop :=
  NoDup (ExtendedCli.order s)
  /\ (forall k, k ∈ ExtendedCli.order s
                <-> is_Some (Extended.visited (ExtendedCli.cube s) !! k))
  /\ (ExtendedCli.status s = ExtendedCli.Running ->
      forall k v,
        Extended.visited (ExtendedCli.cube s) !! k = Some v ->
        Extended.visit_trap v = false
        /\ k <> key (Extended.exit (ExtendedCli.cube s))).

(** What holds of every session of the minimal script: while the process
    runs, every key of the visited set is the key of a cell of the grid that
    is neither a trap nor the exit. *)
Definition minimalSessionInvariant (s : MinimalCli.Session) : Prop :=
  MinimalCli.status s = MinimalCli.Running ->
  forall k, k ∈ Minimal.visited (MinimalCli.cube s) ->
    exists c, k = key c
              /\ isInside (Minimal.size (MinimalCli.cube s)) c = true
              /\ Minimal.isTrap c = false
              /\ c <> Minimal.exit (MinimalCli.cube s).

(** * Properties *)

(** ** Trial division decides primality *)

Lemma isPrime_false_lt2 n : n < 2 -> isPrime n = false.
Proof.
  intros Hn. unfold isPrime.
  destruct (Z.ltb_spec n 2); [reflexivity | lia].
Qed.

Lemma isPrime_loop_range n i :
  2 <= n -> (i ∈ seqZ 2 (Z.sqrt n - 1) <-> 2 <= i /\ i * i <= n).
Proof.
  intros Hn. rewrite elem_of_seqZ.
  split.
  - intros [Hlo Hhi]. split; [exact Hlo |].
    apply Z.sqrt_le_square; lia.
  - intros [Hlo Hsq]. split; [exact Hlo |].
    apply Z.sqrt_le_square in Hsq; lia.
Qed.

Lemma isPrime_true_prime n : isPrime n = true -> Z.prime n.
Proof.
  unfold isPrime. destruct (Z.ltb_spec n 2) as [|Hn]; [discriminate |].
  intros Hall. rewrite forallb_forall in Hall.
  split; [lia |].
  intros d Hd [q Hq].
  assert (Hq1 : 1 < q) by nia.
  set (m := Z.min d q).
  assert (Hm : 2 <= m /\ m * m <= n) by (unfold m; split; nia).
  assert (Hdiv : (m | n)).
  { unfold m. destruct (Z.min_spec d q) as [[_ ->] | [_ ->]].
    - exists q. exact Hq.
    - exists d. lia. }
  specialize (Hall m).
  rewrite <- list_elem_of_In, isPrime_loop_range in Hall by exact Hn.
  specialize (Hall Hm).
  apply Z.rem_divide in Hdiv; [| lia].
  rewrite Hdiv in Hall. discriminate.
Qed.

Lemma prime_isPrime_true n : Z.prime n -> isPrime n = true.
Proof.
  intros Hp. pose proof (Z.prime_ge_2 _ Hp) as Hn.
  destruct Hp as [_ Hp].
  unfold isPrime. destruct (Z.ltb_spec n 2); [lia |].
  apply forallb_forall. intros i Hi.
  rewrite <- list_elem_of_In, isPrime_loop_range in Hi by exact Hn.
  destruct (Z.eqb_spec (Z.rem n i) 0) as [Hrem|]; [| reflexivity].
  exfalso. apply (Hp i); [nia |].
  apply Z.rem_divide; [lia | exact Hrem].
Qed.

Lemma isPrime_spec n : isPrime n = true <-> Z.prime n.
Proof. split; [apply isPrime_true_prime | apply prime_isPrime_true]. Qed.

(** ** The random source *)

Lemma uint32_range v : 0 <= uint32 v < 2 ^ 32.
Proof. unfold uint32. apply Z.mod_pos_bound. lia. Qed.

Lemma limit_bounds max : 0 < max -> 2 ^ 32 - max <= limit max <= 2 ^ 32 - 1.
Proof.
  intros Hmax. unfold limit, maxUint32.
  pose proof (Z.mul_div_le 0xFFFFFFFF max Hmax) as Hle.
  pose proof (Z.mul_succ_div_gt 0xFFFFFFFF max Hmax) as Hgt.
  lia.
Qed.

Lemma sampleOnce_range max draw r :
  0 < max -> sampleOnce max draw = Some r -> 0 <= r < max.
Proof.
  intros Hmax. unfold sampleOnce. case_bool_decide; [| discriminate].
  intros [= <-]. pose proof (uint32_range draw).
  rewrite Z.rem_mod_nonneg by lia. apply Z.mod_pos_bound. exact Hmax.
Qed.

Lemma secureRandomInt_range max draws r rest :
  0 < max -> secureRandomInt max draws = Some (r, rest) -> 0 <= r < max.
Proof.
  intros Hmax. induction draws as [| d draws IH]; simpl; [discriminate |].
  destruct (sampleOnce max d) as [r' |] eqn:Hd.
  - intros [= <- _]. eapply sampleOnce_range; eassumption.
  - exact IH.
Qed.

(** C2, as stated, fails at [max = 4] (a divisor of 2^32): the threshold of
    the script is 2^32 - 4, not [floor(2^32 / 4) * 4 = 2^32]; it covers
    2^32 - 4 draws, fewer than 2^32 - 4 + 1; and the draw 2^32 - 4, below the
    stated threshold, is redrawn. *)
Lemma limit_below_spec_at_4 :
  0 < 4 /\ limit 4 = 2 ^ 32 - 4 /\ limit 4 <> specLimit 4
  /\ ~ (2 ^ 32 - 4 + 1 <= limit 4)
  /\ uint32 4294967292 < specLimit 4 /\ sampleOnce 4 4294967292 = None.
Proof. vm_compute. repeat split; congruence. Qed.

(** C2 (amended): for every [max > 0] the threshold is
    [limit = floor((2^32 - 1) / max) * max]; an iteration returns
    [draw % max] exactly when the 32-bit draw is below [limit] and redraws
    otherwise, so the call returns at the first such draw; the result is in
    [[0, max)]; and [limit] covers at least [2^32 - max] of the 2^32-value
    draw space. *)
Theorem secureRandomInt_rejection (max : Z) (Hmax : 0 < max) :
  limit max = ((2 ^ 32 - 1) / max) * max
  /\ 2 ^ 32 - max <= limit max <= 2 ^ 32
  /\ (forall draw,
        (uint32 draw < limit max ->
           sampleOnce max draw = Some (uint32 draw mod max)
           /\ 0 <= uint32 draw mod max < max)
        /\ (limit max <= uint32 draw -> sampleOnce max draw = None))
  /\ (forall rejected draw rest,
        Forall (fun r => limit max <= uint32 r) rejected ->
        uint32 draw < limit max ->
        secureRandomInt max (rejected ++ draw :: rest)
        = Some (uint32 draw mod max, rest)).
Proof.
  assert (Hstep : forall draw,
    (uint32 draw < limit max ->
       sampleOnce max draw = Some (uint32 draw mod max)
       /\ 0 <= uint32 draw mod max < max)
    /\ (limit max <= uint32 draw -> sampleOnce max draw = None)).
  { intros draw. pose proof (uint32_range draw) as Hd. unfold sampleOnce.
    split; intros Hlt.
    - rewrite bool_decide_eq_true_2 by exact Hlt.
      rewrite Z.rem_mod_nonneg by lia.
      split; [reflexivity | apply Z.mod_pos_bound; exact Hmax].
    - rewrite bool_decide_eq_false_2 by lia. reflexivity. }
  split; [reflexivity |].
  split; [pose proof (limit_bounds max Hmax); lia |].
  split; [exact Hstep |].
  intros rejected draw rest Hrej Hacc.
  induction Hrej as [| r rejected Hr _ IH]; simpl.
  - destruct (Hstep draw) as [Hyes _]. destruct (Hyes Hacc) as [-> _].
    reflexivity.
  - destruct (Hstep r) as [_ Hno]. rewrite (Hno Hr). exact IH.
Qed.

Lemma secureRandomInt_rejection_witness :
  0 < 4
  /\ limit 4 = ((2 ^ 32 - 1) / 4) * 4
  /\ secureRandomInt 4 ([4294967292; 4294967295] ++ 7 :: [9])
     = Some (uint32 7 mod 4, [9]).
Proof.
  split; [lia |].
  destruct (secureRandomInt_rejection 4 ltac:(lia)) as (Hlim & _ & _ & Hloop).
  split; [exact Hlim |].
  apply Hloop.
  - repeat constructor; vm_compute; discriminate.
  - vm_compute. reflexivity.
Defined.

(** ** Coordinates and the direction table *)

Lemma isInside_spec size c :
  isInside size c = true
  <-> (0 <= x c < size) /\ (0 <= y c < size) /\ (0 <= z c < size)
      /\ (0 <= w c < size).
Proof.
  unfold isInside, getAxis. simpl.
  rewrite !andb_true_iff, !Z.leb_le, !Z.ltb_lt. intuition lia.
Qed.

(** What [deltas[dir]] can be: one of the eight one-axis steps for a token,
    an inherited value without enumerable properties for a property name of
    [Object.prototype], and [undefined] for every other string. *)
Lemma deltas_cases dir :
  ((dir ∈ tokens) /\ exists axis v,
      deltas dir = Some [(axis, v)]
      /\ (axis ∈ ["x"; "y"; "z"; "w"]%string) /\ (v = 1 \/ v = -1))
  \/ ((dir ∉ tokens) /\ (dir ∈ objectPrototype) /\ deltas dir = Some [])
  \/ ((dir ∉ tokens) /\ (dir ∉ objectPrototype) /\ deltas dir = None).
Proof.
  destruct (decide (dir ∈ tokens)) as [Hin | Hout].
  - left. split; [exact Hin |].
    unfold tokens, deltasOwn in Hin. simpl in Hin.
    repeat (apply elem_of_cons in Hin; destruct Hin as [-> | Hin];
            [eexists _, _; split; [reflexivity |];
             split; [set_solver | lia] |]).
    inversion Hin.
  - right.
    assert (Hown : ownProperty dir deltasOwn = None).
    { unfold tokens, deltasOwn in Hout. unfold deltasOwn. simpl in *.
      repeat match goal with
             | |- context [String.eqb dir ?s] =>
                 destruct (String.eqb_spec dir s) as [-> | _];
                 [exfalso; apply Hout; set_solver |]
             end.
      reflexivity. }
    unfold deltas. rewrite Hown.
    destruct (existsb (String.eqb dir) objectPrototype) eqn:Hproto.
    + left. split; [exact Hout |]. split; [| reflexivity].
      apply existsb_exists in Hproto. destruct Hproto as (s & Hs & Heq).
      apply String.eqb_eq in Heq. subst s. apply list_elem_of_In. exact Hs.
    + right. split; [exact Hout |]. split; [| reflexivity].
      intros Hin. apply list_elem_of_In in Hin.
      assert (Htrue : existsb (String.eqb dir) objectPrototype = true).
      { apply existsb_exists. exists dir. split; [exact Hin |].
        apply String.eqb_refl. }
      congruence.
Qed.

Lemma shifted_token dir d pos :
  dir ∈ tokens -> deltas dir = Some d -> oneStep pos (shifted pos d).
Proof.
  intros Hin Hd.
  destruct (deltas_cases dir) as [(_ & axis & v & Heq & Haxis & Hv) | [H | H]];
    [| destruct H as [Hout _]; contradiction ..].
  rewrite Hd in Heq. injection Heq as ->.
  exists v. split; [exact Hv |].
  unfold shifted. simpl.
  repeat (apply elem_of_cons in Haxis; destruct Haxis as [-> | Haxis];
          [unfold addAxis; simpl; tauto |]).
  inversion Haxis.
Qed.

Lemma shifted_inherited pos : shifted pos [] = pos.
Proof. reflexivity. Qed.

(** ** The key of a coordinate determines it *)

Lemma pretty_N_go_commaFree (n : N) (s : string) :
  commaFree s = true -> commaFree (pretty_N_go n s) = true.
Proof.
  revert s. induction (N.lt_wf_0 n) as [n _ IH]. intros s Hs.
  destruct (decide (n = 0%N)) as [-> | Hn].
  - rewrite pretty_N_go_0. exact Hs.
  - rewrite pretty_N_go_step by lia. apply IH.
    + apply N.div_lt; lia.
    + simpl. rewrite Hs, andb_true_r.
      unfold pretty_N_char. repeat case_match; reflexivity.
Qed.

Lemma pretty_Z_commaFree (v : Z) : commaFree (pretty v) = true.
Proof.
  assert (Hpos : forall p : positive, commaFree (pretty p) = true).
  { intros p. unfold pretty, pretty_positive, pretty, pretty_N.
    case_decide; [reflexivity |]. apply pretty_N_go_commaFree. reflexivity. }
  destruct v as [| p | p]; unfold pretty, pretty_Z.
  - reflexivity.
  - apply Hpos.
  - change (commaFree (String "-" (pretty p)) = true). simpl. apply Hpos.
Qed.

Lemma split_at_comma (a b s t : string) :
  commaFree a = true -> commaFree b = true ->
  a +:+ "," +:+ s = b +:+ "," +:+ t -> a = b /\ s = t.
Proof.
  revert b. induction a as [| c a IH]; intros [| c' b] Ha Hb Heq.
  - change (String "," s = String "," t) in Heq. injection Heq as ->. auto.
  - exfalso. change (String "," s = String c' (b +:+ "," +:+ t)) in Heq.
    injection Heq as <- _. simpl in Hb. discriminate.
  - exfalso. change (String c (a +:+ "," +:+ s) = String "," t) in Heq.
    injection Heq as -> _. simpl in Ha. discriminate.
  - change (String c (a +:+ "," +:+ s) = String c' (b +:+ "," +:+ t)) in Heq.
    injection Heq as -> Heq. simpl in Ha, Hb.
    apply andb_true_iff in Ha, Hb. destruct Ha as [_ Ha], Hb as [_ Hb].
    destruct (IH b Ha Hb Heq) as [-> ->]. auto.
Qed.

(** Two coordinates with the same key are the same coordinate, so a lookup
    of the visited memory by key is a lookup by coordinate. *)
Lemma key_inj c1 c2 : key c1 = key c2 -> c1 = c2.
Proof.
  destruct c1 as [x1 y1 z1 w1], c2 as [x2 y2 z2 w2]. unfold key. simpl.
  intros H.
  apply split_at_comma in H; try apply pretty_Z_commaFree.
  destruct H as [Hx H].
  apply split_at_comma in H; try apply pretty_Z_commaFree.
  destruct H as [Hy H].
  apply split_at_comma in H; try apply pretty_Z_commaFree.
  destruct H as [Hz Hw].
  apply (inj pretty) in Hx, Hy, Hz, Hw. congruence.
Qed.

(** ** The extended engine: what a call of [move] does *)

Section ExtendedMove.
Import Extended.

Lemma move_error dir h e h' : move dir h = (Error e, h') -> h' = h.
Proof.
  unfold move. destruct (deltas dir) as [d |]; [| congruence].
  destruct (isInside (size h) (shifted (position h) d)); simpl; congruence.
Qed.

Lemma move_moved dir h p t e n h' :
  move dir h = (Moved p t e n, h') ->
  exists d,
    deltas dir = Some d
    /\ p = shifted (position h) d
    /\ isInside (size h) p = true
    /\ h' = committed h p
    /\ t = isTrap h' p
    /\ e = isExit (exit h) p
    /\ n = turn h + 1.
Proof.
  unfold move. destruct (deltas dir) as [d |]; [| discriminate].
  destruct (isInside (size h) (shifted (position h) d)) eqn:Hin; simpl;
    [| discriminate].
  intros [= <- <- <- <- <-]. exists d. unfold committed, isTrap. simpl.
  rewrite Hin. repeat split; reflexivity.
Qed.

(** A call either fails and leaves the engine as it was, or commits. *)
Lemma move_state dir h :
  snd (move dir h) = h
  \/ exists d, deltas dir = Some d
       /\ isInside (size h) (shifted (position h) d) = true
       /\ snd (move dir h) = committed h (shifted (position h) d).
Proof.
  destruct (move dir h) as [[e | p t e n] h'] eqn:Hmove.
  - left. simpl. eapply move_error. exact Hmove.
  - right. apply move_moved in Hmove.
    destruct Hmove as (d & Hd & -> & Hin & -> & _). exists d. auto.
Qed.

(** Invariants are carried along a sequence of calls. *)
Lemma run_invariant (P : Hypercube -> Prop) :
  (forall dir h, P h -> P (snd (move dir h))) ->
  forall dirs h, P h -> P (run dirs h).
Proof.
  intros Hstep dirs. unfold run.
  induction dirs as [| dir dirs IH]; intros h Hh; simpl; [exact Hh |].
  apply IH. apply Hstep. exact Hh.
Qed.

Lemma new_fields size0 draws h rest :
  new size0 draws = Some (h, rest) ->
  size h = size0 /\ turn h = 0 /\ exit h = getCenter size0
  /\ visited h = ∅
  /\ exists d, randomStart size0 draws = Some (position h, d).
Proof.
  unfold new. destruct (randomStart size0 draws) as [[start d] |]; simpl;
    [| discriminate].
  intros [= <- <-]. simpl. eauto 10.
Qed.

End ExtendedMove.

Lemma randomStart_inside size draws start rest :
  0 < size -> randomStart size draws = Some (start, rest) ->
  isInside size start = true.
Proof.
  intros Hsize. unfold randomStart.
  destruct (secureRandomInt size draws) as [[cx d1] |] eqn:H1; simpl;
    [| discriminate].
  destruct (secureRandomInt size d1) as [[cy d2] |] eqn:H2; simpl;
    [| discriminate].
  destruct (secureRandomInt size d2) as [[cz d3] |] eqn:H3; simpl;
    [| discriminate].
  destruct (secureRandomInt size d3) as [[cw d4] |] eqn:H4; simpl;
    [| discriminate].
  intros [= <- <-]. apply isInside_spec. simpl.
  split; [| split; [| split]]; eapply secureRandomInt_range; eassumption.
Qed.

(** ** The minimal engine: what a call of [move] does *)

Section MinimalMove.
Import Minimal.

Lemma minimal_move_state dir h :
  snd (move dir h) = h
  \/ exists d, deltas dir = Some d
       /\ isInside (size h) (shifted (position h) d) = true
       /\ snd (move dir h)
          = {| size := size h;
               visited := {[ key (shifted (position h) d) ]} ∪ visited h;
               exit := exit h; position := shifted (position h) d |}.
Proof.
  unfold move. destruct (deltas dir) as [d |]; [| left; reflexivity].
  destruct (isInside (size h) (shifted (position h) d)) eqn:Hin; simpl;
    [| left; reflexivity].
  right. exists d. auto.
Qed.

Lemma minimal_run_invariant (P : Hypercube -> Prop) :
  (forall dir h, P h -> P (snd (move dir h))) ->
  forall dirs h, P h -> P (run dirs h).
Proof.
  intros Hstep dirs. unfold run.
  induction dirs as [| dir dirs IH]; intros h Hh; simpl; [exact Hh |].
  apply IH. apply Hstep. exact Hh.
Qed.

Lemma minimal_new_fields size0 draws h rest :
  new size0 draws = Some (h, rest) ->
  size h = size0 /\ exit h = getCenter size0 /\ visited h = ∅
  /\ exists d, randomStart size0 draws = Some (position h, d).
Proof.
  unfold new. destruct (randomStart size0 draws) as [[start d] |]; simpl;
    [| discriminate].
  intros [= <- <-]. simpl. eauto 10.
Qed.

End MinimalMove.

(** ** Invariants of the engines *)

(** C5: in every engine reached from a freshly constructed one (grid size
    [size > 0], random start) by any sequence of [move] calls with any
    arguments, every component of the position lies in [[0, size)]; this
    holds for the extended and for the minimal engine. *)
Theorem position_inside_grid (size : Z) (Hsize : 0 < size) :
  (forall draws h0 rest dirs,
     Extended.new size draws = Some (h0, rest) ->
     let p := Extended.position (Extended.run dirs h0) in
     Extended.size (Extended.run dirs h0) = size
     /\ (0 <= x p < size) /\ (0 <= y p < size) /\ (0 <= z p < size)
     /\ (0 <= w p < size))
  /\ (forall draws h0 rest dirs,
     Minimal.new size draws = Some (h0, rest) ->
     let p := Minimal.position (Minimal.run dirs h0) in
     Minimal.size (Minimal.run dirs h0) = size
     /\ (0 <= x p < size) /\ (0 <= y p < size) /\ (0 <= z p < size)
     /\ (0 <= w p < size)).
Proof.
  split; intros draws h0 rest dirs Hnew p; subst p.
  - apply new_fields in Hnew. destruct Hnew as (Hs & _ & _ & _ & d & Hstart).
    apply randomStart_inside in Hstart; [| exact Hsize].
    rewrite <- isInside_spec.
    apply (run_invariant (fun h =>
             Extended.size h = size
             /\ isInside size (Extended.position h) = true)); [| auto].
    intros dir h [Hsz Hin].
    destruct (move_state dir h) as [-> | (d' & _ & Hin' & ->)]; simpl;
      [auto | rewrite <- Hsz; auto].
  - apply minimal_new_fields in Hnew.
    destruct Hnew as (Hs & _ & _ & d & Hstart).
    apply randomStart_inside in Hstart; [| exact Hsize].
    rewrite <- isInside_spec.
    apply (minimal_run_invariant (fun h =>
             Minimal.size h = size
             /\ isInside size (Minimal.position h) = true)); [| auto].
    intros dir h [Hsz Hin].
    destruct (minimal_move_state dir h) as [-> | (d' & _ & Hin' & ->)]; simpl;
      [auto | rewrite <- Hsz; auto].
Qed.

Lemma position_inside_grid_witness :
  0 < 4
  /\ (let p := Extended.position
                 (Extended.run ["xp"; "wn"; "constructor"; "up"]%string
                    (Extended.Build 4 0 (Coord 2 2 2 2) (Coord 1 2 3 0) ∅)) in
      (0 <= x p < 4) /\ (0 <= y p < 4) /\ (0 <= z p < 4) /\ (0 <= w p < 4))
  /\ (let p := Minimal.position
                 (Minimal.run ["zn"; "zn"; "zn"; "zn"]%string
                    (Minimal.Build 5 ∅ (Coord 2 2 2 2) (Coord 4 0 1 3))) in
      (0 <= x p < 5) /\ (0 <= y p < 5) /\ (0 <= z p < 5) /\ (0 <= w p < 5)).
Proof.
  split; [lia |]. split.
  - destruct (position_inside_grid 4 ltac:(lia)) as [Hext _].
    apply (Hext [5; 4294967294; 6; 7; 8] _ [] _). vm_compute. reflexivity.
  - destruct (position_inside_grid 5 ltac:(lia)) as [_ Hmin].
    apply (Hmin [4; 4294967295; 5; 6; 8] _ [] _). vm_compute. reflexivity.
Defined.

(** ** The turn counter and the visited memory of the extended engine *)

Lemma visited_size_step dir h :
  Z.of_nat (base.size (Extended.visited h)) <= Extended.turn h ->
  Z.of_nat (base.size (Extended.visited (snd (Extended.move dir h))))
  <= Extended.turn (snd (Extended.move dir h)).
Proof.
  intros Hh. destruct (move_state dir h) as [-> | (d & _ & _ & ->)];
    [exact Hh |].
  unfold committed. simpl. rewrite map_size_insert.
  destruct (Extended.visited h !! key (shifted (Extended.position h) d));
    unfold id; lia.
Qed.

(** C10: after any sequence of [move] calls on a freshly constructed
    extended engine, the number of keys of the visited memory is at most the
    turn counter. *)
Theorem visited_size_le_turn size draws h0 rest dirs :
  Extended.new size draws = Some (h0, rest) ->
  Z.of_nat (base.size (Extended.visited (Extended.run dirs h0)))
  <= Extended.turn (Extended.run dirs h0).
Proof.
  intros Hnew. apply new_fields in Hnew.
  destruct Hnew as (_ & Hturn & _ & Hvis & _).
  apply (run_invariant (fun h =>
           Z.of_nat (base.size (Extended.visited h)) <= Extended.turn h)).
  - intros dir h. apply visited_size_step.
  - rewrite Hvis, Hturn, map_size_empty. lia.
Qed.

Lemma visited_size_le_turn_witness :
  Z.of_nat (base.size (Extended.visited
     (Extended.run ["xp"; "xn"; "xp"; "xn"; "left"]%string
        (Extended.Build 4 0 (Coord 2 2 2 2) (Coord 1 0 0 0) ∅))))
  <= Extended.turn
     (Extended.run ["xp"; "xn"; "xp"; "xn"; "left"]%string
        (Extended.Build 4 0 (Coord 2 2 2 2) (Coord 1 0 0 0) ∅)).
Proof.
  apply (visited_size_le_turn 4 [1; 0; 0; 0] _ []). vm_compute. reflexivity.
Defined.

(** ** Traps *)

(** C3: in the extended engine a successful move increments the turn
    counter before the trap predicate is evaluated, and the trap flag it
    returns says whether [(7x + 11y + 13z + 17w + 19 * turn) mod 97] is
    prime, for the new position [(x, y, z, w)] and the turn after the
    increment. *)
Theorem move_trap_flag dir h p t e n h' :
  0 <= Extended.turn h ->
  Extended.move dir h = (Extended.Moved p t e n, h') ->
  Extended.turn h' = Extended.turn h + 1
  /\ n = Extended.turn h'
  /\ Extended.position h' = p
  /\ t = Extended.isTrap h' p
  /\ (t = true
      <-> Z.prime ((7 * x p + 11 * y p + 13 * z p + 17 * w p
                    + 19 * Extended.turn h') mod 97)).
Proof.
  intros Hturn Hmove. apply move_moved in Hmove.
  destruct Hmove as (d & _ & _ & Hin & -> & -> & _ & ->).
  apply isInside_spec in Hin. unfold committed. simpl.
  repeat (split; [reflexivity |]).
  unfold Extended.isTrap. simpl.
  rewrite Z.rem_mod_nonneg by lia. rewrite isPrime_spec.
  replace (x p * 7 + y p * 11 + z p * 13 + w p * 17
           + (Extended.turn h + 1) * 19)
    with (7 * x p + 11 * y p + 13 * z p + 17 * w p
          + 19 * (Extended.turn h + 1)) by lia.
  reflexivity.
Qed.

Lemma move_trap_flag_witness :
  Extended.move "xp" (Extended.Build 4 2 (Coord 2 2 2 2) (Coord 1 0 0 0) ∅)
  = (Extended.Moved (Coord 2 0 0 0) true false 3,
     Extended.Build 4 3 (Coord 2 2 2 2) (Coord 2 0 0 0)
       {[ "2,0,0,0"%string := Extended.Visit true 3 ]})
  /\ (true = true <-> Z.prime ((7 * 2 + 11 * 0 + 13 * 0 + 17 * 0 + 19 * 3)
                               mod 97)).
Proof.
  assert (Hmove :
    Extended.move "xp" (Extended.Build 4 2 (Coord 2 2 2 2) (Coord 1 0 0 0) ∅)
    = (Extended.Moved (Coord 2 0 0 0) true false 3,
       Extended.Build 4 3 (Coord 2 2 2 2) (Coord 2 0 0 0)
         {[ "2,0,0,0"%string := Extended.Visit true 3 ]}))
    by (vm_compute; reflexivity).
  split; [exact Hmove |].
  refine (proj2 (proj2 (proj2 (proj2
            (move_trap_flag _ _ _ _ _ _ _ _ Hmove))))).
  simpl. lia.
Defined.

(** C8: in the extended engine the trap and exit flags are not exclusive.
    On the size-4 grid, whose exit is (2,2,2,2), the engine started at
    (0,2,2,2) and moved twice along +x lands on the exit at turn 2, where
    7*2 + 11*2 + 13*2 + 17*2 + 19*2 = 134 and 134 mod 97 = 37 is prime: the
    move returns trap = true and exit = true. *)
Theorem trap_and_exit_together :
  exists h0 h1,
    Extended.new 4 [0; 2; 2; 2] = Some (h0, [])
    /\ Extended.exit h0 = Coord 2 2 2 2
    /\ h1 = Extended.run ["xp"]%string h0
    /\ Extended.turn h1 = 1
    /\ fst (Extended.move "xp" h1) = Extended.Moved (Coord 2 2 2 2) true true 2
    /\ 7 * 2 + 11 * 2 + 13 * 2 + 17 * 2 + 19 * 2 = 134
    /\ Z.rem 134 97 = 37
    /\ Z.prime 37.
Proof.
  eexists _, _.
  split; [vm_compute; reflexivity |].
  split; [reflexivity |].
  split; [reflexivity |].
  split; [reflexivity |].
  split; [vm_compute; reflexivity |].
  split; [reflexivity |].
  split; [reflexivity |].
  apply isPrime_spec. vm_compute. reflexivity.
Qed.

(** C9: in the minimal engine, for every grid size [N >= 1] the exit cell
    is not a trap: the sum of its components is [4 * floor(N / 2)], which is
    0 or a multiple of 4 that is at least 4. *)
Theorem minimal_exit_not_trap (N : Z) :
  1 <= N ->
  x (getCenter N) + y (getCenter N) + z (getCenter N) + w (getCenter N)
  = 4 * (N / 2)
  /\ ~ Z.prime (4 * (N / 2))
  /\ Minimal.isTrap (getCenter N) = false.
Proof.
  intros HN. assert (Hmid : 0 <= N / 2) by (apply Z.div_pos; lia).
  assert (Hnot : ~ Z.prime (4 * (N / 2))).
  { intros [Hgt Hdiv]. apply (Hdiv 2); [lia |].
    exists (2 * (N / 2)). lia. }
  split; [simpl; lia |]. split; [exact Hnot |].
  unfold Minimal.isTrap. simpl.
  replace (N / 2 + N / 2 + N / 2 + N / 2) with (4 * (N / 2)) by lia.
  destruct (isPrime (4 * (N / 2))) eqn:Hp; [| reflexivity].
  apply isPrime_spec in Hp. contradiction.
Qed.

Lemma minimal_exit_not_trap_witness :
  1 <= 5 /\ Minimal.isTrap (getCenter 5) = false.
Proof.
  split; [lia |]. apply (minimal_exit_not_trap 5). lia.
Defined.

(** ** The visited memory keeps its keys *)

(** C1, as stated, fails on the extended engine: started at (1,0,0,0) on the
    size-4 grid, the moves xp, xn, xp enter the cell (2,0,0,0) at turn 1,
    where it is recorded safe (14 + 19 = 33), and again at turn 3, where the
    record is replaced by a trap record (14 + 57 = 71, a prime). *)
Lemma revisit_overwrites_trap_flag :
  let h0 := Extended.Build 4 0 (Coord 2 2 2 2) (Coord 1 0 0 0) ∅ in
  Extended.new 4 [1; 0; 0; 0] = Some (h0, [])
  /\ Extended.visited (Extended.run ["xp"]%string h0) !! "2,0,0,0"%string
     = Some (Extended.Visit false 1)
  /\ Extended.visited (Extended.run ["xp"; "xn"; "xp"]%string h0)
       !! "2,0,0,0"%string
     = Some (Extended.Visit true 3).
Proof. vm_compute. repeat split; reflexivity. Qed.

Lemma visited_step dir h k v :
  Extended.visited h !! k = Some v ->
  Extended.visited (snd (Extended.move dir h)) !! k = Some v
  \/ (k = key (Extended.position (snd (Extended.move dir h)))
      /\ Extended.visited (snd (Extended.move dir h)) !! k
         = Some (Extended.Visit
                   (Extended.isTrap (snd (Extended.move dir h))
                      (Extended.position (snd (Extended.move dir h))))
                   (Extended.turn h + 1))).
Proof.
  intros Hk. destruct (move_state dir h) as [-> | (d & _ & _ & ->)];
    [left; exact Hk |].
  unfold committed, Extended.isTrap. simpl.
  destruct (decide (key (shifted (Extended.position h) d) = k)) as [<- | Hne].
  - right. split; [reflexivity |]. apply lookup_insert_eq.
  - left. rewrite lookup_insert_ne by exact Hne. exact Hk.
Qed.

(** C1 (amended): a key of the visited memory is never removed by a later
    operation.  In the extended engine a successful move writes, under the
    key of the cell it enters, the trap flag evaluated at the new turn
    together with that turn, replacing the record of an earlier visit, and
    leaves the record of every other key as it was; a failing move leaves the
    memory as it was.  In the minimal engine the memory is a set of keys: a
    successful move adds the key of the entered cell, and the set only
    grows. *)
Theorem visited_keys_persist :
  (forall dir h p t e n h',
     Extended.move dir h = (Extended.Moved p t e n, h') ->
     Extended.visited h' !! key p
     = Some (Extended.Visit (Extended.isTrap h' p) (Extended.turn h + 1))
     /\ t = Extended.isTrap h' p
     /\ n = Extended.turn h + 1
     /\ Extended.turn h' = Extended.turn h + 1
     /\ Extended.position h' = p
     /\ (forall k, k <> key p ->
           Extended.visited h' !! k = Extended.visited h !! k))
  /\ (forall dir h err h',
        Extended.move dir h = (Extended.Error err, h') ->
        Extended.visited h' = Extended.visited h)
  /\ (forall dirs h k,
        is_Some (Extended.visited h !! k) ->
        is_Some (Extended.visited (Extended.run dirs h) !! k))
  /\ (forall dir h p t e h',
        Minimal.move dir h = (Minimal.Moved p t e, h') ->
        Minimal.visited h' = {[ key p ]} ∪ Minimal.visited h)
  /\ (forall dirs h k,
        k ∈ Minimal.visited h -> k ∈ Minimal.visited (Minimal.run dirs h)).
Proof.
  split; [| split; [| split; [| split]]].
  - intros dir h p t e n h' Hmove. apply move_moved in Hmove.
    destruct Hmove as (d & _ & _ & _ & -> & -> & _ & ->).
    unfold committed, Extended.isTrap. simpl.
    split; [apply lookup_insert_eq |].
    repeat (split; [reflexivity |]).
    intros k Hk. apply lookup_insert_ne. congruence.
  - intros dir h err h' Hmove. apply move_error in Hmove. subst h'. reflexivity.
  - intros dirs h k Hk. revert h Hk.
    apply (run_invariant (fun h => is_Some (Extended.visited h !! k))).
    intros dir h [v Hv].
    destruct (visited_step dir h k v Hv) as [-> | [_ ->]]; eauto.
  - intros dir h p t e h'. unfold Minimal.move.
    destruct (deltas dir) as [d |]; [| discriminate].
    destruct (isInside (Minimal.size h) (shifted (Minimal.position h) d));
      simpl; [| discriminate].
    intros [= <- _ _ <-]. reflexivity.
  - intros dirs h k Hk. revert h Hk.
    apply (minimal_run_invariant (fun h => k ∈ Minimal.visited h)).
    intros dir h Hk.
    destruct (minimal_move_state dir h) as [-> | (d & _ & _ & ->)];
      [exact Hk | simpl; set_solver].
Qed.

Lemma visited_keys_persist_witness :
  (Extended.visited
     (Extended.Build 4 3 (Coord 2 2 2 2) (Coord 2 0 0 0)
        {[ "2,0,0,0"%string := Extended.Visit true 3 ]})
     !! key (Coord 2 0 0 0)
   = Some (Extended.Visit
             (Extended.isTrap
                (Extended.Build 4 3 (Coord 2 2 2 2) (Coord 2 0 0 0)
                   {[ "2,0,0,0"%string := Extended.Visit true 3 ]})
                (Coord 2 0 0 0))
             (2 + 1))
   /\ true
      = Extended.isTrap
          (Extended.Build 4 3 (Coord 2 2 2 2) (Coord 2 0 0 0)
             {[ "2,0,0,0"%string := Extended.Visit true 3 ]})
          (Coord 2 0 0 0))
  /\ is_Some (Extended.visited
                (Extended.run ["xn"; "xp"; "yp"]%string
                   (Extended.Build 4 1 (Coord 2 2 2 2) (Coord 2 0 0 0)
                      {[ "2,0,0,0"%string := Extended.Visit false 1 ]}))
              !! "2,0,0,0"%string)
  /\ "4,0,1,2"%string ∈
     Minimal.visited
       (Minimal.run ["zp"; "wp"]%string
          (Minimal.Build 5 {[ "4,0,1,2"%string ]} (Coord 2 2 2 2)
             (Coord 4 0 1 2))).
Proof.
  destruct visited_keys_persist as (Hset & _ & Hext & _ & Hmin).
  split; [| split].
  - assert (Hmove :
      Extended.move "xp"
        (Extended.Build 4 2 (Coord 2 2 2 2) (Coord 1 0 0 0)
           {[ "2,0,0,0"%string := Extended.Visit false 1 ]})
      = (Extended.Moved (Coord 2 0 0 0) true false 3,
         Extended.Build 4 3 (Coord 2 2 2 2) (Coord 2 0 0 0)
           {[ "2,0,0,0"%string := Extended.Visit true 3 ]}))
      by (vm_compute; reflexivity).
    destruct (Hset _ _ _ _ _ _ _ Hmove) as (Hrec & Hflag & _).
    split; [exact Hrec | exact Hflag].
  - apply Hext. vm_compute. eauto.
  - apply Hmin. vm_compute. reflexivity.
Defined.

(** ** Direction names that are not tokens *)

(** A name that is neither a token nor a property of [Object.prototype] is
    refused, and so is a candidate outside the grid; a refused call changes
    nothing. *)
Lemma move_unknown_name dir :
  dir ∉ tokens -> dir ∉ objectPrototype ->
  (forall h, Extended.move dir h = (Extended.Error "Invalid direction.", h))
  /\ (forall h, Minimal.move dir h = (Minimal.Error "Invalid direction.", h)).
Proof.
  intros Htok Hproto.
  destruct (deltas_cases dir) as [(Hin & _) | [(_ & Hin & _) | (_ & _ & Hd)]];
    [contradiction .. |].
  unfold Extended.move, Minimal.move. rewrite Hd. auto.
Qed.

Lemma move_outside dir d :
  deltas dir = Some d ->
  (forall h, isInside (Extended.size h) (shifted (Extended.position h) d) = false ->
     Extended.move dir h = (Extended.Error "You hit the boundary wall.", h))
  /\ (forall h, isInside (Minimal.size h) (shifted (Minimal.position h) d) = false ->
     Minimal.move dir h = (Minimal.Error "You hit a wall of the hypercube.", h)).
Proof.
  intros Hd. unfold Extended.move, Minimal.move. rewrite Hd.
  split; intros h ->; reflexivity.
Qed.

Lemma minimal_move_error dir h e h' :
  Minimal.move dir h = (Minimal.Error e, h') -> h' = h.
Proof.
  unfold Minimal.move. destruct (deltas dir) as [d |]; [| congruence].
  destruct (isInside (Minimal.size h) (shifted (Minimal.position h) d));
    simpl; congruence.
Qed.

(** A token moves the player one step along one axis. *)
Lemma move_token_one_step dir :
  dir ∈ tokens ->
  (forall h p t e n h',
     Extended.move dir h = (Extended.Moved p t e n, h') ->
     oneStep (Extended.position h) p /\ Extended.position h' = p)
  /\ (forall h p t e h',
     Minimal.move dir h = (Minimal.Moved p t e, h') ->
     oneStep (Minimal.position h) p /\ Minimal.position h' = p).
Proof.
  intros Htok. split.
  - intros h p t e n h' Hmove. apply move_moved in Hmove.
    destruct Hmove as (d & Hd & -> & _ & -> & _). split; [| reflexivity].
    eapply shifted_token; eassumption.
  - intros h p t e h'. unfold Minimal.move.
    destruct (deltas dir) as [d |] eqn:Hd; [| discriminate].
    destruct (isInside (Minimal.size h) (shifted (Minimal.position h) d));
      simpl; [| discriminate].
    intros [= <- _ _ <-]. split; [| reflexivity].
    eapply shifted_token; eassumption.
Qed.

(** A property name of [Object.prototype] passes the guard [!deltas[dir]]:
    the call commits a move to the cell the player is already in. *)
Lemma move_inherited_name dir :
  dir ∈ objectPrototype ->
  (forall h, isInside (Extended.size h) (Extended.position h) = true ->
     exists t e,
       Extended.move dir h
       = (Extended.Moved (Extended.position h) t e (Extended.turn h + 1),
          committed h (Extended.position h)))
  /\ (forall h, isInside (Minimal.size h) (Minimal.position h) = true ->
     exists t e,
       Minimal.move dir h
       = (Minimal.Moved (Minimal.position h) t e,
          Minimal.Build (Minimal.size h)
            ({[ key (Minimal.position h) ]} ∪ Minimal.visited h)
            (Minimal.exit h) (Minimal.position h))).
Proof.
  intros Hproto.
  assert (Hd : deltas dir = Some []).
  { destruct (deltas_cases dir)
      as [(_ & axis & v & Hd & _) | [(_ & _ & Hd) | (_ & Hout & _)]];
      [| exact Hd | contradiction].
    revert Hd. unfold deltas.
    destruct (ownProperty dir deltasOwn) eqn:Hown.
    - intros _. exfalso. clear -Hproto Hown.
      unfold deltasOwn in Hown. simpl in Hown.
      repeat match type of Hown with
             | context [String.eqb dir ?s] =>
                 destruct (String.eqb_spec dir s) as [-> | _];
                 [apply list_elem_of_In in Hproto; vm_compute in Hproto;
                  repeat (destruct Hproto as [Hproto | Hproto];
                          [discriminate |]); contradiction |]
             end.
      discriminate.
    - destruct (existsb (String.eqb dir) objectPrototype); [| discriminate].
      reflexivity. }
  unfold Extended.move, Minimal.move. rewrite Hd. simpl.
  split; intros h ->; simpl; eauto.
Qed.

(** C4: evaluation at the direction name "constructor", which is not one of
    the eight tokens: neither engine returns an error; both commit a move,
    the extended engine incrementing the turn counter and both writing the
    starting cell into the visited memory. *)
Theorem move_constructor_commits :
  ("constructor"%string ∉ tokens)
  /\ Extended.move "constructor"
       (Extended.Build 4 0 (Coord 2 2 2 2) (Coord 1 0 0 0) ∅)
     = (Extended.Moved (Coord 1 0 0 0) false false 1,
        Extended.Build 4 1 (Coord 2 2 2 2) (Coord 1 0 0 0)
          {[ "1,0,0,0"%string := Extended.Visit false 1 ]})
  /\ Minimal.move "constructor"
       (Minimal.Build 5 ∅ (Coord 2 2 2 2) (Coord 1 0 0 0))
     = (Minimal.Moved (Coord 1 0 0 0) false false,
        Minimal.Build 5 {[ "1,0,0,0"%string ]} (Coord 2 2 2 2) (Coord 1 0 0 0)).
Proof.
  split; [| split].
  - unfold tokens, deltasOwn. simpl. intros Hin.
    repeat (apply elem_of_cons in Hin; destruct Hin as [Hin | Hin];
            [discriminate |]).
    inversion Hin.
  - vm_compute. reflexivity.
  - vm_compute. reflexivity.
Qed.

(** C6: evaluation at the direction name "toString": the move succeeds and
    the new position is the old one, no component having changed. *)
Theorem move_toString_stays :
  fst (Extended.move "toString"
         (Extended.Build 4 0 (Coord 2 2 2 2) (Coord 3 1 0 2) ∅))
  = Extended.Moved (Coord 3 1 0 2) false false 1
  /\ fst (Minimal.move "toString"
            (Minimal.Build 5 ∅ (Coord 2 2 2 2) (Coord 3 1 0 2)))
     = Minimal.Moved (Coord 3 1 0 2) false false
  /\ ~ oneStep (Coord 3 1 0 2) (Coord 3 1 0 2).
Proof.
  split; [vm_compute; reflexivity |].
  split; [vm_compute; reflexivity |].
  intros (v & Hv & Hstep).
  destruct Hstep as [H | [H | [H | H]]]; injection H; lia.
Qed.

(** ** The slice viewer *)

Lemma string_app_assoc (a b c : string) : (a +:+ b) +:+ c = a +:+ (b +:+ c).
Proof.
  induction a as [| ch a IH]; [reflexivity |].
  change (String ch ((a +:+ b) +:+ c) = String ch (a +:+ (b +:+ c))).
  rewrite IH. reflexivity.
Qed.

Lemma string_app_nil_r (a : string) : a +:+ "" = a.
Proof.
  induction a as [| ch a IH]; [reflexivity |].
  change (String ch (a +:+ "") = String ch a).
  rewrite IH. reflexivity.
Qed.

(** The row loop [row += ...] builds the concatenation of its markers. *)
Lemma row_loop {A} (f : A -> string) (l : list A) (acc : string) :
  fold_left (fun row a => row +:+ f a) l acc
  = acc +:+ foldr (fun a row => f a +:+ row) ""%string l.
Proof.
  revert acc. induction l as [| a l IH]; intros acc; simpl.
  - symmetry. apply string_app_nil_r.
  - rewrite IH. apply string_app_assoc.
Qed.

(** A loop whose body only logs lines appends them in order and leaves the
    engine alone. *)
Lemma log_loop {A} (h : Extended.Hypercube)
      (body : Extended.World -> A -> Extended.World) (lines : A -> list string) :
  (forall out a,
     body {| Extended.cube := h; Extended.console := out |} a
     = {| Extended.cube := h; Extended.console := out ++ lines a |}) ->
  forall l out,
    fold_left body l {| Extended.cube := h; Extended.console := out |}
    = {| Extended.cube := h;
         Extended.console := out ++ concat (map lines l) |}.
Proof.
  intros Hbody l. induction l as [| a l IH]; intros out; simpl.
  - rewrite app_nil_r. reflexivity.
  - rewrite Hbody, IH, <- app_assoc. reflexivity.
Qed.

Lemma marker_classify h cx cy cz :
  Extended.exit h = getCenter (Extended.size h) ->
  Extended.marker h (w (Extended.position h)) cx cy cz
  = glyph (classify h (Coord cx cy cz (w (Extended.position h)))).
Proof.
  intros Hexit. unfold Extended.marker, classify.
  set (c := {| x := cx; y := cy; z := cz; w := w (Extended.position h) |}).
  destruct (decide (c = Extended.position h)) as [Heq | Hne].
  - rewrite <- Heq. simpl. rewrite !Z.eqb_refl. reflexivity.
  - destruct ((x (Extended.position h) =? cx)
              && (y (Extended.position h) =? cy)
              && (z (Extended.position h) =? cz)
              && (w (Extended.position h) =? w (Extended.position h)))
      eqn:Hpos.
    { exfalso. apply Hne. rewrite !andb_true_iff, !Z.eqb_eq in Hpos.
      destruct Hpos as [[[Hx Hy] Hz] _].
      destruct (Extended.position h) as [px py pz pw].
      simpl in *. subst c. congruence. }
    rewrite <- Hexit.
    destruct (decide (c = Extended.exit h)) as [Heq | Hne'].
    + rewrite <- Heq. unfold isExit. rewrite !Z.eqb_refl. reflexivity.
    + destruct (isExit (Extended.exit h) c) eqn:Hex.
      { exfalso. apply Hne'. unfold isExit in Hex.
        rewrite !andb_true_iff, !Z.eqb_eq in Hex.
        destruct Hex as [[[Hx Hy] Hz] Hw].
        destruct (Extended.exit h) as [ex ey ez ew], c as [c1 c2 c3 c4].
        simpl in *. congruence. }
      destruct (Extended.visited h !! key c) as [[[] n] |]; reflexivity.
Qed.

Lemma renderSlice_lines h out :
  Extended.exit h = getCenter (Extended.size h) ->
  Extended.renderSlice {| Extended.cube := h; Extended.console := out |}
  = {| Extended.cube := h; Extended.console := out ++ sliceLines h |}.
Proof.
  intros Hexit.
  unfold Extended.renderSlice, sliceLines, Extended.log. simpl.
  rewrite (log_loop h _ (sliceLayer h)).
  - simpl. rewrite <- !app_assoc. reflexivity.
  - intros out' cy. simpl.
    rewrite (log_loop h _ (fun cz => [sliceRow h cy cz])).
    + simpl. rewrite <- !app_assoc. unfold sliceLayer. simpl.
      do 3 f_equal.
      induction (seqZ 0 (Extended.size h)) as [| a l IH];
        simpl; [reflexivity | rewrite IH; reflexivity].
    + intros out'' cz. simpl. do 3 f_equal.
      rewrite row_loop. unfold sliceRow.
      induction (seqZ 0 (Extended.size h)) as [| cx l IH]; [reflexivity |].
      simpl in *. rewrite marker_classify by exact Hexit.
      change (String.append "" ?s) with s in *. rewrite IH. reflexivity.
Qed.

Lemma exit_is_center size draws h0 rest dirs :
  Extended.new size draws = Some (h0, rest) ->
  Extended.exit (Extended.run dirs h0)
  = getCenter (Extended.size (Extended.run dirs h0)).
Proof.
  intros Hnew. apply new_fields in Hnew.
  destruct Hnew as (Hsize & _ & Hexit & _).
  apply (run_invariant (fun h =>
           Extended.exit h = getCenter (Extended.size h))).
  - intros dir h Hh.
    destruct (move_state dir h) as [-> | (d & _ & _ & ->)]; exact Hh.
  - rewrite Hexit, Hsize. reflexivity.
Qed.

(** C7: on an engine reached from a freshly constructed one, the slice
    viewer marks every cell (x, y, z) at the player's w-level by priority:
    the player's coordinate as player; otherwise the fixed center as exit,
    visited or not; otherwise a coordinate of the visited memory as trap or
    safe by its recorded flag; otherwise unknown.  The lines it prints are a
    function of the engine, and the engine is left as it was. *)
Theorem renderSlice_classifies size draws h0 rest dirs out :
  Extended.new size draws = Some (h0, rest) ->
  let h := Extended.run dirs h0 in
  let wd := Extended.renderSlice
              {| Extended.cube := h; Extended.console := out |} in
  Extended.cube wd = h
  /\ Extended.console wd = out ++ sliceLines h
  /\ (forall cx cy cz,
        Extended.marker h (w (Extended.position h)) cx cy cz
        = glyph (classify h (Coord cx cy cz (w (Extended.position h))))).
Proof.
  intros Hnew h wd.
  pose proof (exit_is_center size draws h0 rest dirs Hnew) as Hexit.
  fold h in Hexit. subst wd. rewrite (renderSlice_lines h out Hexit). simpl.
  split; [reflexivity |]. split; [reflexivity |].
  intros cx cy cz. apply marker_classify. exact Hexit.
Qed.

Lemma renderSlice_classifies_witness :
  Extended.console
    (Extended.renderSlice
       {| Extended.cube :=
            Extended.run ["xp"; "xn"; "yn"; "constructor"]%string
              (Extended.Build 4 0 (Coord 2 2 2 2) (Coord 1 2 2 2) ∅);
          Extended.console := [] |})
  = [] ++ sliceLines
            (Extended.run ["xp"; "xn"; "yn"; "constructor"]%string
               (Extended.Build 4 0 (Coord 2 2 2 2) (Coord 1 2 2 2) ∅)).
Proof.
  assert (Hnew : Extended.new 4 [1; 2; 2; 2]
                 = Some (Extended.Build 4 0 (Coord 2 2 2 2) (Coord 1 2 2 2) ∅, []))
    by (vm_compute; reflexivity).
  exact (proj1 (proj2 (renderSlice_classifies _ _ _ _ _ _ Hnew))).
Defined.

(** * Further properties of the scripts *)

(** ** [secureRandomInt] *)

(** What a call returns is the remainder of the first draw below the
    threshold, every draw before it having been at or above the threshold; no
    result yet means that every draw so far was at or above the threshold.
    This holds for every [max]. *)
Theorem secureRandomInt_first_accepted max draws :
  match secureRandomInt max draws with
  | Some (r, rest) =>
      exists rejected d,
        draws = rejected ++ d :: rest
        /\ Forall (fun v => limit max <= uint32 v) rejected
        /\ uint32 d < limit max
        /\ r = Z.rem (uint32 d) max
  | None => Forall (fun v => limit max <= uint32 v) draws
  end.
Proof.
  induction draws as [| d draws IH]; simpl; [constructor |].
  unfold sampleOnce. case_bool_decide as Hd.
  - exists [], d. simpl. auto.
  - destruct (secureRandomInt max draws) as [[r rest] |].
    + destruct IH as (rejected & d' & -> & Hrej & Hacc & Hr).
      exists (d :: rejected), d'. simpl.
      split; [reflexivity |]. split; [| auto].
      constructor; [lia | exact Hrej].
    + constructor; [lia | exact IH].
Qed.

(** For [max] of 2^32 or more the threshold is 0, no draw is below it, and
    the loop never returns, whatever the entropy source delivers. *)
Theorem secureRandomInt_never_returns max draws :
  2 ^ 32 <= max -> limit max = 0 /\ secureRandomInt max draws = None.
Proof.
  intros Hmax.
  assert (Hlim : limit max = 0).
  { unfold limit, maxUint32. rewrite Z.div_small by lia. reflexivity. }
  split; [exact Hlim |].
  induction draws as [| d draws IH]; simpl; [reflexivity |].
  unfold sampleOnce. rewrite Hlim.
  pose proof (uint32_range d). rewrite bool_decide_eq_false_2 by lia.
  exact IH.
Qed.

Lemma secureRandomInt_never_returns_witness :
  2 ^ 32 <= 2 ^ 32
  /\ secureRandomInt (2 ^ 32) [0; 1; 4294967295; 17] = None.
Proof.
  split; [lia |].
  apply (secureRandomInt_never_returns (2 ^ 32) [0; 1; 4294967295; 17]). lia.
Defined.

Lemma sampleOnce_preimage max r d :
  0 < max -> 0 <= r < max -> 0 <= d < 2 ^ 32 ->
  (sampleOnce max d = Some r
   <-> exists k, 0 <= k < maxUint32 / max /\ d = k * max + r).
Proof.
  intros Hmax Hr Hd.
  assert (Hu : uint32 d = d) by (unfold uint32; apply Z.mod_small; lia).
  unfold sampleOnce. rewrite Hu. unfold limit.
  split.
  - case_bool_decide as Hlt; [| discriminate].
    rewrite Z.rem_mod_nonneg by lia. intros [= Hrem].
    exists (d / max).
    pose proof (Z.div_mod d max ltac:(lia)) as Hdm.
    pose proof (Z.mod_pos_bound d max Hmax) as Hb.
    assert (0 <= d / max) by (apply Z.div_pos; lia).
    split; [nia | lia].
  - intros (k & Hk & ->).
    rewrite bool_decide_eq_true_2 by nia.
    rewrite Z.rem_mod_nonneg by nia.
    f_equal. rewrite Z.add_comm, Z.mod_add by lia. apply Z.mod_small. lia.
Qed.

(** No modulo bias: among the 2^32 values a draw can take, every result
    [r] of [[0, max)] is returned for the same number of them,
    [floor(0xFFFFFFFF / max)]. *)
Theorem secureRandomInt_unbiased max r :
  0 < max -> 0 <= r < max ->
  length (filter (fun d => sampleOnce max d = Some r) (seqZ 0 (2 ^ 32)))
  = Z.to_nat (maxUint32 / max).
Proof.
  intros Hmax Hr.
  assert (Hperm :
    filter (fun d => sampleOnce max d = Some r) (seqZ 0 (2 ^ 32))
    ≡ₚ (fun k => k * max + r) <$> seqZ 0 (maxUint32 / max)).
  { apply NoDup_Permutation.
    - apply NoDup_filter, NoDup_seqZ.
    - apply NoDup_fmap_2; [| apply NoDup_seqZ].
      intros k1 k2 Heq. nia.
    - intros d. rewrite list_elem_of_filter, list_elem_of_fmap.
      rewrite elem_of_seqZ. split.
      + intros [Hs Hd].
        apply sampleOnce_preimage in Hs; [| lia ..].
        destruct Hs as (k & Hk & ->). exists k.
        split; [reflexivity |]. apply elem_of_seqZ. lia.
      + intros (k & -> & Hk). apply elem_of_seqZ in Hk.
        pose proof (limit_bounds max Hmax) as Hlim. unfold limit in Hlim.
        assert (Hd : 0 <= k * max + r < 2 ^ 32) by nia.
        split; [| lia].
        apply sampleOnce_preimage; [lia .. |]. exists k. split; [lia | reflexivity]. }
  rewrite Hperm, length_fmap, length_seqZ. reflexivity.
Qed.

Lemma secureRandomInt_unbiased_witness :
  length (filter (fun d => sampleOnce 4 d = Some 3) (seqZ 0 (2 ^ 32)))
  = Z.to_nat (maxUint32 / 4).
Proof. apply (secureRandomInt_unbiased 4 3); lia. Defined.

(** ** [isPrime], [isExit], [key], [getCenter] *)

(** [isPrime] returns [true] exactly on the prime numbers, for every
    integer argument (negative numbers, 0 and 1 included). *)
Theorem isPrime_decides_primality n :
  (isPrime n = true <-> Z.prime n) /\ (isPrime n = false <-> ~ Z.prime n).
Proof.
  pose proof (isPrime_spec n) as Hspec.
  split; [exact Hspec |].
  destruct (isPrime n).
  - split; [discriminate | intros H; exfalso; apply H, Hspec; reflexivity].
  - split; [intros _ Hp; apply Hspec in Hp; discriminate | reflexivity].
Qed.

Lemma isExit_spec exit c : isExit exit c = true <-> c = exit.
Proof.
  unfold isExit. rewrite !andb_true_iff, !Z.eqb_eq.
  destruct exit as [ex ey ez ew], c as [cx cy cz cw]. simpl.
  split; [intros [[[-> ->] ->] ->]; reflexivity | intros [= -> -> -> ->]; auto].
Qed.

(** [isExit] is the equality test with the exit coordinate: it returns
    [true] on the exit and [false] on every other coordinate. *)
Theorem isExit_iff_equal exit c :
  (isExit exit c = true <-> c = exit) /\ (isExit exit c = false <-> c <> exit).
Proof.
  pose proof (isExit_spec exit c) as Hspec. split; [exact Hspec |].
  destruct (isExit exit c).
  - split; [discriminate | intros H; exfalso; apply H, Hspec; reflexivity].
  - split; [intros _ Heq; apply Hspec in Heq; discriminate | reflexivity].
Qed.

(** The key string determines the coordinate: two coordinates (of any
    integers, negative ones included) have the same key only if they are
    equal. *)
Theorem key_determines_coordinate c1 c2 : key c1 = key c2 <-> c1 = c2.
Proof. split; [apply key_inj | intros ->; reflexivity]. Qed.

(** For a grid of size at least 1 the center is a cell of the grid. *)
Theorem getCenter_inside size : 1 <= size -> isInside size (getCenter size) = true.
Proof.
  intros Hsize. apply isInside_spec. simpl.
  assert (0 <= size / 2 < size).
  { split; [apply Z.div_pos; lia | apply Z.div_lt_upper_bound; lia]. }
  tauto.
Qed.

Lemma getCenter_inside_witness : 1 <= 1 /\ isInside 1 (getCenter 1) = true.
Proof. split; [lia | apply (getCenter_inside 1); lia]. Defined.

(** ** The constructors *)

(** When the first four draws are below the threshold, the constructors
    consume exactly these, in the order x, y, z, w, and start the player at
    their remainders, with the exit at the center, an empty visited memory
    and (extended) turn 0. *)
Theorem constructor_start size d1 d2 d3 d4 rest :
  Forall (fun d => uint32 d < limit size) [d1; d2; d3; d4] ->
  let start := {| x := Z.rem (uint32 d1) size; y := Z.rem (uint32 d2) size;
                  z := Z.rem (uint32 d3) size; w := Z.rem (uint32 d4) size |} in
  Extended.new size (d1 :: d2 :: d3 :: d4 :: rest)
  = Some (Extended.Build size 0 (getCenter size) start ∅, rest)
  /\ Minimal.new size (d1 :: d2 :: d3 :: d4 :: rest)
     = Some (Minimal.Build size ∅ (getCenter size) start, rest).
Proof.
  intros Hacc start.
  apply Forall_cons in Hacc as [H1 Hacc]. apply Forall_cons in Hacc as [H2 Hacc].
  apply Forall_cons in Hacc as [H3 Hacc]. apply Forall_cons in Hacc as [H4 _].
  assert (Hs : forall d, uint32 d < limit size ->
                sampleOnce size d = Some (Z.rem (uint32 d) size)).
  { intros d Hd. unfold sampleOnce.
    rewrite bool_decide_eq_true_2 by exact Hd. reflexivity. }
  assert (Hstart : randomStart size (d1 :: d2 :: d3 :: d4 :: rest)
                   = Some (start, rest)).
  { unfold randomStart. simpl. rewrite (Hs d1 H1). simpl.
    rewrite (Hs d2 H2). simpl. rewrite (Hs d3 H3). simpl.
    rewrite (Hs d4 H4). reflexivity. }
  unfold Extended.new, Minimal.new. rewrite Hstart. auto.
Qed.

Lemma constructor_start_witness :
  Extended.new 4 [5; 6; 7; 8; 9]
  = Some (Extended.Build 4 0 (getCenter 4)
            {| x := Z.rem (uint32 5) 4; y := Z.rem (uint32 6) 4;
               z := Z.rem (uint32 7) 4; w := Z.rem (uint32 8) 4 |} ∅, [9]).
Proof.
  refine (proj1 (constructor_start 4 5 6 7 8 [9] _)).
  repeat constructor; vm_compute; reflexivity.
Defined.

(** Fewer than four draws below the threshold: the constructor has not
    returned. *)
Theorem constructor_needs_four_draws size draws :
  (length (accepted size draws) < 4)%nat ->
  Extended.new size draws = None /\ Minimal.new size draws = None.
Proof.
  intros Hlen.
  assert (Hstep : forall ds,
    match secureRandomInt size ds with
    | Some (_, rest) => length (accepted size ds) = S (length (accepted size rest))
    | None => length (accepted size ds) = 0%nat
    end).
  { induction ds as [| d ds IH]; simpl; [reflexivity |].
    unfold sampleOnce, accepted. rewrite filter_cons.
    case_bool_decide as Hd.
    - rewrite decide_True by exact Hd. reflexivity.
    - rewrite decide_False by exact Hd. exact IH. }
  assert (Hstart : randomStart size draws = None).
  { unfold randomStart.
    pose proof (Hstep draws) as S1.
    destruct (secureRandomInt size draws) as [[cx d1] |]; simpl; [| reflexivity].
    pose proof (Hstep d1) as S2.
    destruct (secureRandomInt size d1) as [[cy d2] |]; simpl; [| reflexivity].
    pose proof (Hstep d2) as S3.
    destruct (secureRandomInt size d2) as [[cz d3] |]; simpl; [| reflexivity].
    pose proof (Hstep d3) as S4.
    destruct (secureRandomInt size d3) as [[cw d4] |]; simpl; [| reflexivity].
    lia. }
  unfold Extended.new, Minimal.new. rewrite Hstart. auto.
Qed.

Lemma constructor_needs_four_draws_witness :
  Extended.new 4 [1; 4294967295; 2; 4294967293; 3] = None.
Proof.
  refine (proj1 (constructor_needs_four_draws 4
                   [1; 4294967295; 2; 4294967293; 3] _)).
  vm_compute. lia.
Defined.

(** ** [move]: what the result reports and what the memory keeps *)

Lemma minimal_move_moved dir h p t e h' :
  Minimal.move dir h = (Minimal.Moved p t e, h') ->
  exists d,
    deltas dir = Some d
    /\ p = shifted (Minimal.position h) d
    /\ isInside (Minimal.size h) p = true
    /\ h' = Minimal.Build (Minimal.size h) ({[ key p ]} ∪ Minimal.visited h)
              (Minimal.exit h) p
    /\ t = Minimal.isTrap p
    /\ e = isExit (Minimal.exit h) p.
Proof.
  unfold Minimal.move. destruct (deltas dir) as [d |]; [| discriminate].
  destruct (isInside (Minimal.size h) (shifted (Minimal.position h) d)) eqn:Hin;
    simpl; [| discriminate].
  intros [= <- <- <- <-]. exists d. rewrite Hin. auto 10.
Qed.

(** The grid size and the exit are never changed by [move]. *)
Theorem move_keeps_size_and_exit :
  (forall dirs h,
     Extended.size (Extended.run dirs h) = Extended.size h
     /\ Extended.exit (Extended.run dirs h) = Extended.exit h)
  /\ (forall dirs h,
     Minimal.size (Minimal.run dirs h) = Minimal.size h
     /\ Minimal.exit (Minimal.run dirs h) = Minimal.exit h).
Proof.
  split; intros dirs h.
  - apply (run_invariant (fun h' =>
             Extended.size h' = Extended.size h
             /\ Extended.exit h' = Extended.exit h)); [| auto].
    intros dir h1 Hh1.
    destruct (move_state dir h1) as [-> | (d & _ & _ & ->)]; exact Hh1.
  - apply (minimal_run_invariant (fun h' =>
             Minimal.size h' = Minimal.size h
             /\ Minimal.exit h' = Minimal.exit h)); [| auto].
    intros dir h1 Hh1.
    destruct (minimal_move_state dir h1) as [-> | (d & _ & _ & ->)]; exact Hh1.
Qed.

(** The turn counter never decreases, and a sequence of calls adds at most
    its length to it. *)
Theorem turn_bounds dirs h :
  Extended.turn h <= Extended.turn (Extended.run dirs h)
  <= Extended.turn h + Z.of_nat (length dirs).
Proof.
  revert h. unfold Extended.run.
  induction dirs as [| dir dirs IH]; intros h; simpl; [lia |].
  specialize (IH (snd (Extended.move dir h))).
  destruct (move_state dir h) as [Heq | (d & _ & _ & Heq)];
    rewrite Heq in IH |- *; simpl in IH; lia.
Qed.

(** The exit flag of a successful move says whether the new position is the
    exit cell, and the result carries the position the engine now has. *)
Theorem move_exit_flag :
  (forall dir h p t e n h',
     Extended.move dir h = (Extended.Moved p t e n, h') ->
     Extended.position h' = p /\ (e = true <-> p = Extended.exit h'))
  /\ (forall dir h p t e h',
     Minimal.move dir h = (Minimal.Moved p t e, h') ->
     Minimal.position h' = p /\ (e = true <-> p = Minimal.exit h')).
Proof.
  split.
  - intros dir h p t e n h' Hmove. apply move_moved in Hmove.
    destruct Hmove as (d & _ & _ & _ & -> & _ & -> & _). simpl.
    split; [reflexivity | apply isExit_spec].
  - intros dir h p t e h' Hmove. apply minimal_move_moved in Hmove.
    destruct Hmove as (d & _ & _ & _ & -> & _ & ->). simpl.
    split; [reflexivity | apply isExit_spec].
Qed.

Lemma move_exit_flag_witness :
  true = true <-> Coord 2 2 2 2 = Coord 2 2 2 2.
Proof.
  refine (proj2 (proj1 move_exit_flag "wp"%string
           (Extended.Build 4 0 (Coord 2 2 2 2) (Coord 2 2 2 1) ∅)
           (Coord 2 2 2 2) false true 1
           (Extended.Build 4 1 (Coord 2 2 2 2) (Coord 2 2 2 2)
              {[ "2,2,2,2"%string := Extended.Visit false 1 ]}) _)).
  vm_compute. reflexivity.
Defined.

(** In the minimal engine the trap flag of a successful move says whether
    the sum of the four components of the new position is prime; it does not
    depend on the engine. *)
Theorem minimal_move_trap_flag dir h p t e h' :
  Minimal.move dir h = (Minimal.Moved p t e, h') ->
  (t = true <-> Z.prime (x p + y p + z p + w p)).
Proof.
  intros Hmove. apply minimal_move_moved in Hmove.
  destruct Hmove as (d & _ & _ & _ & _ & -> & _).
  unfold Minimal.isTrap. apply isPrime_spec.
Qed.

Lemma minimal_move_trap_flag_witness :
  true = true <-> Z.prime (1 + 1 + 2 + 1).
Proof.
  refine (minimal_move_trap_flag "zp"%string
            (Minimal.Build 5 ∅ (Coord 2 2 2 2) (Coord 1 1 1 1))
            (Coord 1 1 2 1) true false
            (Minimal.Build 5 {[ "1,1,2,1"%string ]} (Coord 2 2 2 2)
               (Coord 1 1 2 1)) _).
  vm_compute. reflexivity.
Defined.

(** After a successful move of the extended engine the memory holds, under
    the key of the new position, exactly the trap flag and the turn that the
    result reports, and the record of every other coordinate is as before. *)
Theorem move_memory_round_trip dir h p t e n h' :
  Extended.move dir h = (Extended.Moved p t e n, h') ->
  Extended.visited h' !! key p = Some (Extended.Visit t n)
  /\ (forall c, c <> p ->
        Extended.visited h' !! key c = Extended.visited h !! key c).
Proof.
  intros Hmove. apply move_moved in Hmove.
  destruct Hmove as (d & _ & _ & _ & -> & -> & _ & ->).
  unfold committed, Extended.isTrap. simpl. split.
  - apply lookup_insert_eq.
  - intros c Hc. apply lookup_insert_ne. intros Hk. apply Hc.
    symmetry. apply key_inj. exact Hk.
Qed.

Lemma move_memory_round_trip_witness :
  Extended.visited
    (Extended.Build 4 3 (Coord 2 2 2 2) (Coord 2 0 0 0)
       {[ "2,0,0,0"%string := Extended.Visit true 3 ]})
    !! key (Coord 2 0 0 0)
  = Some (Extended.Visit true 3).
Proof.
  refine (proj1 (move_memory_round_trip "xp"%string
            (Extended.Build 4 2 (Coord 2 2 2 2) (Coord 1 0 0 0) ∅)
            (Coord 2 0 0 0) true false 3 _ _)).
  vm_compute. reflexivity.
Defined.

(** Every record of the visited memory of an engine reached from a freshly
    constructed one is truthful: its key is the key of a cell of the grid,
    its turn lies between 1 and the current turn, and its flag is the trap
    predicate of that cell at the recorded turn. *)
Theorem visited_records_truthful size draws h0 rest dirs k v :
  Extended.new size draws = Some (h0, rest) ->
  Extended.visited (Extended.run dirs h0) !! k = Some v ->
  truthful size (Extended.turn (Extended.run dirs h0)) k v.
Proof.
  intros Hnew. apply new_fields in Hnew.
  destruct Hnew as (Hsize & Hturn & _ & Hvis & _).
  revert k v.
  apply (run_invariant (fun h =>
           Extended.size h = size /\ 0 <= Extended.turn h
           /\ forall k v, Extended.visited h !! k = Some v ->
                          truthful size (Extended.turn h) k v)).
  - intros dir h (Hsz & Ht & Hrec).
    destruct (move_state dir h) as [-> | (d & _ & Hin & ->)]; [auto |].
    unfold committed. simpl. split; [exact Hsz |]. split; [lia |].
    intros k v Hk. apply lookup_insert_Some in Hk.
    destruct Hk as [[<- <-] | [_ Hk]].
    + exists (shifted (Extended.position h) d). simpl.
      rewrite <- Hsz. repeat split; [exact Hin | lia | lia].
    + destruct (Hrec k v Hk) as (c & Hc & Hcin & Hcturn & Hctrap).
      exists c. repeat split; [exact Hc | exact Hcin | lia | lia | exact Hctrap].
  - split; [exact Hsize |]. split; [lia |].
    intros k v. rewrite Hvis, lookup_empty. discriminate.
Qed.

Lemma visited_records_truthful_witness :
  truthful 4 3 "2,0,0,0" (Extended.Visit true 3).
Proof.
  refine (visited_records_truthful 4 [1; 0; 0; 0]
            (Extended.Build 4 0 (Coord 2 2 2 2) (Coord 1 0 0 0) ∅) []
            ["xp"; "xn"; "xp"]%string "2,0,0,0"%string (Extended.Visit true 3)
            _ _); vm_compute; reflexivity.
Defined.

(** ** [move]: edge cases and composition *)

(** On a grid of size 0 or less no cell is inside, so no call of [move]
    succeeds: every call returns an error and leaves the engine as it was. *)
Theorem move_fails_without_grid :
  (forall dir h, Extended.size h <= 0 ->
     exists e, Extended.move dir h = (Extended.Error e, h))
  /\ (forall dir h, Minimal.size h <= 0 ->
     exists e, Minimal.move dir h = (Minimal.Error e, h)).
Proof.
  assert (Hout : forall size c, size <= 0 -> isInside size c = false).
  { intros size c Hsize. destruct (isInside size c) eqn:Hin; [| reflexivity].
    apply isInside_spec in Hin. lia. }
  split; intros dir h Hsize.
  - unfold Extended.move. destruct (deltas dir) as [d |]; [| eauto].
    rewrite Hout by exact Hsize. simpl. eauto.
  - unfold Minimal.move. destruct (deltas dir) as [d |]; [| eauto].
    rewrite Hout by exact Hsize. simpl. eauto.
Qed.

Lemma move_fails_without_grid_witness :
  exists e, Extended.move "xp"
              (Extended.Build 0 0 (Coord 0 0 0 0) (Coord 0 0 0 0) ∅)
            = (Extended.Error e,
               Extended.Build 0 0 (Coord 0 0 0 0) (Coord 0 0 0 0) ∅).
Proof.
  apply (proj1 move_fails_without_grid "xp"%string
           (Extended.Build 0 0 (Coord 0 0 0 0) (Coord 0 0 0 0) ∅)).
  simpl. lia.
Defined.

Lemma shifted_opposite dir d :
  dir ∈ tokens -> deltas dir = Some d ->
  exists d', deltas (opposite dir) = Some d'
             /\ forall pos, shifted (shifted pos d) d' = pos.
Proof.
  intros Hin Hd. unfold tokens, deltasOwn in Hin. simpl in Hin.
  repeat (apply elem_of_cons in Hin; destruct Hin as [-> | Hin];
          [vm_compute in Hd; injection Hd as <-;
           eexists; split; [vm_compute; reflexivity |];
           intros [px py pz pw]; unfold shifted, addAxis; simpl;
           f_equal; lia |]).
  inversion Hin.
Qed.

(** A step can be taken back: after a successful move by a token from a
    position inside the grid, the move by the opposite token succeeds and
    brings the player back to that position. *)
Theorem move_back dir :
  dir ∈ tokens ->
  (forall h p t e n h',
     isInside (Extended.size h) (Extended.position h) = true ->
     Extended.move dir h = (Extended.Moved p t e n, h') ->
     exists t' e' h'',
       Extended.move (opposite dir) h'
       = (Extended.Moved (Extended.position h) t' e' (n + 1), h'')
       /\ Extended.position h'' = Extended.position h)
  /\ (forall h p t e h',
     isInside (Minimal.size h) (Minimal.position h) = true ->
     Minimal.move dir h = (Minimal.Moved p t e, h') ->
     exists t' e' h'',
       Minimal.move (opposite dir) h'
       = (Minimal.Moved (Minimal.position h) t' e', h'')
       /\ Minimal.position h'' = Minimal.position h).
Proof.
  intros Htok. split.
  - intros h p t e n h' Hin Hmove. apply move_moved in Hmove.
    destruct Hmove as (d & Hd & -> & _ & -> & _ & _ & ->).
    destruct (shifted_opposite dir d Htok Hd) as (d' & Hd' & Hback).
    unfold Extended.move. rewrite Hd'. unfold committed at 1 2. simpl.
    rewrite Hback, Hin. simpl. eauto.
  - intros h p t e h' Hin Hmove. apply minimal_move_moved in Hmove.
    destruct Hmove as (d & Hd & -> & _ & -> & _ & _).
    destruct (shifted_opposite dir d Htok Hd) as (d' & Hd' & Hback).
    unfold Minimal.move. rewrite Hd'. simpl.
    rewrite Hback, Hin. simpl. eauto.
Qed.

Lemma move_back_witness :
  exists t' e' h'',
    Extended.move (opposite "yp")
      (Extended.Build 4 1 (Coord 2 2 2 2) (Coord 1 1 0 0)
         {[ "1,1,0,0"%string := Extended.Visit true 1 ]})
    = (Extended.Moved (Coord 1 0 0 0) t' e' (1 + 1), h'')
    /\ Extended.position h'' = Coord 1 0 0 0.
Proof.
  refine (proj1 (move_back "yp"%string _)
            (Extended.Build 4 0 (Coord 2 2 2 2) (Coord 1 0 0 0) ∅)
            (Coord 1 1 0 0) true false 1 _ _ _).
  - apply (bool_decide_unpack _). vm_compute. exact I.
  - vm_compute. reflexivity.
  - vm_compute. reflexivity.
Defined.

(** The time-shifting trap pattern repeats every 97 turns: for a cell with
    components at least 0 and a turn at least 0, the trap predicate at turn
    [turn + 97 * k] is the one at turn [turn], as long as the value summed at
    the later turn stays below 2^53, where the script's numbers are exact. *)
Theorem isTrap_period h c k :
  0 <= x c -> 0 <= y c -> 0 <= z c -> 0 <= w c ->
  0 <= Extended.turn h -> 0 <= k ->
  x c * 7 + y c * 11 + z c * 13 + w c * 17
  + (Extended.turn h + 97 * k) * 19 < 2 ^ 53 ->
  Extended.isTrap (atTurn (Extended.turn h + 97 * k) h) c = Extended.isTrap h c.
Proof.
  intros Hx Hy Hz Hw Ht Hk _. unfold Extended.isTrap, atTurn. simpl.
  f_equal. rewrite !Z.rem_mod_nonneg by lia.
  replace (x c * 7 + y c * 11 + z c * 13 + w c * 17
           + (Extended.turn h + 97 * k) * 19)
    with (x c * 7 + y c * 11 + z c * 13 + w c * 17 + Extended.turn h * 19
          + (k * 19) * 97) by lia.
  apply Z.mod_add. lia.
Qed.

Lemma isTrap_period_witness :
  Extended.isTrap
    (atTurn (3 + 97 * 2) (Extended.Build 4 3 (Coord 2 2 2 2) (Coord 2 0 0 0) ∅))
    (Coord 2 0 0 0)
  = Extended.isTrap (Extended.Build 4 3 (Coord 2 2 2 2) (Coord 2 0 0 0) ∅)
      (Coord 2 0 0 0).
Proof.
  apply (isTrap_period (Extended.Build 4 3 (Coord 2 2 2 2) (Coord 2 0 0 0) ∅)
           (Coord 2 0 0 0) 2); simpl; lia.
Defined.

(** ** The shape of a slice *)

Lemma string_length_app (a b : string) :
  String.length (a +:+ b) = (String.length a + String.length b)%nat.
Proof.
  induction a as [| ch a IH]; [reflexivity |].
  change (S (String.length (a +:+ b)) = S (String.length a + String.length b)).
  rewrite IH. reflexivity.
Qed.

Lemma concat_singletons {A B} (f : A -> B) (l : list A) :
  concat (map (fun a => [f a]) l) = map f l.
Proof. induction l as [| a l IH]; simpl; [reflexivity | rewrite IH; reflexivity]. Qed.

Lemma marker_length h wLevel cx cy cz :
  String.length (Extended.marker h wLevel cx cy cz) = 3%nat.
Proof.
  unfold Extended.marker.
  repeat match goal with
         | |- context [if ?b then _ else _] => destruct b
         | |- context [match ?o with Some _ => _ | None => _ end] => destruct o
         end; reflexivity.
Qed.

(** For an engine of grid size [n >= 0], [renderSlice] prints two heading
    lines, [n] layers of one heading, [n] rows and one empty line, and six
    legend lines; every row it builds has three characters per column. *)
Theorem renderSlice_shape h out :
  0 <= Extended.size h ->
  let n := Z.to_nat (Extended.size h) in
  length (Extended.console
            (Extended.renderSlice
               {| Extended.cube := h; Extended.console := out |}))
  = (length out + 8 + n * (n + 2))%nat
  /\ forall cy cz,
       String.length
         (fold_left
            (fun row cx =>
               row +:+ Extended.marker h (w (Extended.position h)) cx cy cz)
            (seqZ 0 (Extended.size h)) ""%string)
       = (3 * n)%nat.
Proof.
  intros Hsize n. split.
  - unfold Extended.renderSlice, Extended.log. simpl.
    rewrite (log_loop h _ (fun cy =>
      ("--- Y = " +:+ pretty cy +:+ " ---")
        :: map (fun cz =>
                  fold_left
                    (fun row cx =>
                       row +:+ Extended.marker h (w (Extended.position h)) cx cy cz)
                    (seqZ 0 (Extended.size h)) ""%string)
               (seqZ 0 (Extended.size h)) ++ [""%string])).
    + simpl. rewrite !length_app. simpl.
      assert (Hlayers : forall (l : list Z) (f : Z -> list string) (m : nat),
                (forall a, length (f a) = m) ->
                length (concat (map f l)) = (length l * m)%nat).
      { intros l f m Hf. induction l as [| a l IH]; simpl; [reflexivity |].
        rewrite length_app, Hf, IH. reflexivity. }
      rewrite (Hlayers _ _ (n + 2)%nat).
      * rewrite length_seqZ. fold n. lia.
      * intros cy. simpl. rewrite length_app, length_map, length_seqZ.
        fold n. simpl. lia.
    + intros out' cy. simpl.
      rewrite (log_loop h _ (fun cz =>
        [fold_left
           (fun row cx =>
              row +:+ Extended.marker h (w (Extended.position h)) cx cy cz)
           (seqZ 0 (Extended.size h)) ""%string])).
      * simpl. rewrite <- !app_assoc. simpl. do 2 f_equal.
        rewrite (concat_singletons (fun cz =>
          fold_left
            (fun row cx =>
               row +:+ Extended.marker h (w (Extended.position h)) cx cy cz)
            (seqZ 0 (Extended.size h)) ""%string)).
        reflexivity.
      * intros out'' cz. reflexivity.
  - intros cy cz. rewrite row_loop.
    change (String.append "" ?s) with s.
    unfold n. rewrite <- (length_seqZ 0 (Extended.size h)).
    induction (seqZ 0 (Extended.size h)) as [| cx l IH]; [reflexivity |].
    simpl. rewrite string_length_app, marker_length, IH. lia.
Qed.

Lemma renderSlice_shape_witness :
  length (Extended.console
            (Extended.renderSlice
               {| Extended.cube :=
                    Extended.Build 4 0 (Coord 2 2 2 2) (Coord 1 2 2 2) ∅;
                  Extended.console := [] |}))
  = (length (@nil string) + 8 + Z.to_nat 4 * (Z.to_nat 4 + 2))%nat.
Proof.
  refine (proj1 (renderSlice_shape
            (Extended.Build 4 0 (Coord 2 2 2 2) (Coord 1 2 2 2) ∅) [] _)).
  simpl. lia.
Defined.

(** ** The command line of the extended script *)

Lemma renderSlice_markerLines h out :
  Extended.renderSlice {| Extended.cube := h; Extended.console := out |}
  = {| Extended.cube := h; Extended.console := out ++ markerLines h |}.
Proof.
  unfold Extended.renderSlice, markerLines, Extended.log. simpl.
  rewrite (log_loop h _ (fun cy =>
    ("--- Y = " +:+ pretty cy +:+ " ---")
      :: map (markerRow h cy) (seqZ 0 (Extended.size h)) ++ [""%string])).
  - simpl. rewrite <- !app_assoc. reflexivity.
  - intros out' cy. simpl.
    rewrite (log_loop h _ (fun cz => [markerRow h cy cz])).
    + simpl. rewrite <- !app_assoc. simpl. do 2 f_equal.
      rewrite (concat_singletons (markerRow h cy)). reflexivity.
    + intros out'' cz. reflexivity.
Qed.

Lemma cli_renderSlice s :
  ExtendedCli.renderSlice s
  = {| ExtendedCli.cube := ExtendedCli.cube s;
       ExtendedCli.order := ExtendedCli.order s;
       ExtendedCli.console :=
         ExtendedCli.console s
         ++ map ExtendedCli.Text (markerLines (ExtendedCli.cube s));
       ExtendedCli.status := ExtendedCli.status s |}.
Proof.
  unfold ExtendedCli.renderSlice. rewrite renderSlice_markerLines. reflexivity.
Qed.

Lemma onlyLogs_refl s : onlyLogs s s.
Proof.
  unfold onlyLogs. repeat split. exists []. rewrite app_nil_r. reflexivity.
Qed.

Lemma onlyLogs_trans s1 s2 s3 : onlyLogs s1 s2 -> onlyLogs s2 s3 -> onlyLogs s1 s3.
Proof.
  intros (Hc1 & Ho1 & Hs1 & l1 & Hl1) (Hc2 & Ho2 & Hs2 & l2 & Hl2).
  unfold onlyLogs. rewrite Hc2, Ho2, Hs2, Hl2, Hl1.
  repeat split; try assumption. exists (l1 ++ l2). rewrite app_assoc. reflexivity.
Qed.

Lemma onlyLogs_log entry s : onlyLogs s (ExtendedCli.log entry s).
Proof. unfold onlyLogs, ExtendedCli.log. cbn. eauto. Qed.

Lemma cli_printHelp s : onlyLogs s (ExtendedCli.printHelp s).
Proof.
  unfold ExtendedCli.printHelp.
  repeat (eapply onlyLogs_trans; [| apply onlyLogs_log]).
  apply onlyLogs_refl.
Qed.

Lemma cli_renderSlice_onlyLogs s : onlyLogs s (ExtendedCli.renderSlice s).
Proof.
  rewrite cli_renderSlice. unfold onlyLogs.
  repeat (split; [reflexivity |]). eexists. reflexivity.
Qed.

Lemma printMemory_loop h ord st keys acc :
  fold_left (fun s coord =>
               match Extended.visited (ExtendedCli.cube s) !! coord with
               | Some data =>
                   ExtendedCli.log
                     (ExtendedCli.Text (ExtendedCli.memoryLine coord data)) s
               | None => s
               end)
            keys
            {| ExtendedCli.cube := h; ExtendedCli.order := ord;
               ExtendedCli.console := acc; ExtendedCli.status := st |}
  = {| ExtendedCli.cube := h; ExtendedCli.order := ord;
       ExtendedCli.console :=
         acc ++ omap (fun coord =>
                        (fun data =>
                           ExtendedCli.Text (ExtendedCli.memoryLine coord data))
                        <$> Extended.visited h !! coord) keys;
       ExtendedCli.status := st |}.
Proof.
  revert acc. induction keys as [| k keys IH]; intros acc; cbn.
  - rewrite app_nil_r. reflexivity.
  - destruct (Extended.visited h !! k) as [data |] eqn:Hk; cbn.
    + unfold ExtendedCli.log. cbn. rewrite IH, <- app_assoc. reflexivity.
    + apply IH.
Qed.

Lemma cli_printMemory s :
  ExtendedCli.printMemory s
  = {| ExtendedCli.cube := ExtendedCli.cube s;
       ExtendedCli.order := ExtendedCli.order s;
       ExtendedCli.console :=
         ExtendedCli.console s
         ++ ExtendedCli.Text (Extended.newline +:+ "🌫 Memory:")
            :: omap (fun coord =>
                       (fun data =>
                          ExtendedCli.Text (ExtendedCli.memoryLine coord data))
                       <$> Extended.visited (ExtendedCli.cube s) !! coord)
                    (ExtendedCli.order s);
       ExtendedCli.status := ExtendedCli.status s |}.
Proof.
  unfold ExtendedCli.printMemory, ExtendedCli.log.
  destruct s as [h ord out st]. cbn.
  rewrite printMemory_loop, <- app_assoc. reflexivity.
Qed.

(** Membership of a string in a list of literals. *)
Ltac list_member := repeat constructor.
Ltac not_list_member H :=
  exfalso;
  repeat (apply elem_of_cons in H; destruct H as [H | H]; [discriminate |]);
  inversion H.

Lemma keyword_cases cmd :
  cmd = "exit"%string \/ cmd = "help"%string \/ cmd = "view"%string
  \/ cmd = "map"%string
  \/ (String.eqb cmd "exit" = false /\ String.eqb cmd "help" = false
      /\ String.eqb cmd "view" = false /\ String.eqb cmd "map" = false
      /\ (cmd ∉ keywords)).
Proof.
  destruct (String.eqb_spec cmd "exit"); [auto |].
  destruct (String.eqb_spec cmd "help"); [auto |].
  destruct (String.eqb_spec cmd "view"); [auto |].
  destruct (String.eqb_spec cmd "map"); [auto |].
  do 4 right. repeat split. unfold keywords. intros Hin.
  repeat (apply elem_of_cons in Hin; destruct Hin as [-> | Hin];
          [congruence |]).
  inversion Hin.
Qed.

(** What one answer of the prompt does, case by case. *)
Lemma respond_cases cmd s :
  (cmd = "exit"%string
   /\ ExtendedCli.respond cmd s = ExtendedCli.processExit s)
  \/ ((cmd ∈ ["help"; "view"; "map"]%string)
      /\ onlyLogs s (ExtendedCli.respond cmd s))
  \/ ((cmd ∉ keywords)
      /\ exists error,
           Extended.move cmd (ExtendedCli.cube s)
           = (Extended.Error error, ExtendedCli.cube s)
           /\ onlyLogs s (ExtendedCli.respond cmd s))
  \/ ((cmd ∉ keywords)
      /\ exists p t e n h',
           Extended.move cmd (ExtendedCli.cube s) = (Extended.Moved p t e n, h')
           /\ ExtendedCli.respond cmd s
              = {| ExtendedCli.cube := h';
                   ExtendedCli.order := orderAfter s p;
                   ExtendedCli.console :=
                     ExtendedCli.console s ++ moveReport h' p t e n;
                   ExtendedCli.status :=
                     if t || e then ExtendedCli.Exited
                     else ExtendedCli.status s |}).
Proof.
  destruct (keyword_cases cmd)
    as [-> | [-> | [-> | [-> | (E1 & E2 & E3 & E4 & Hkw)]]]].
  - left. split; reflexivity.
  - right. left. split; [list_member |]. apply cli_printHelp.
  - right. left. split; [list_member |].
    change (ExtendedCli.respond "view" s) with (ExtendedCli.renderSlice s).
    rewrite cli_renderSlice. unfold onlyLogs. cbn. eauto 10.
  - right. left. split; [list_member |].
    change (ExtendedCli.respond "map" s) with (ExtendedCli.printMemory s).
    rewrite cli_printMemory. unfold onlyLogs. cbn. eauto 10.
  - right. right. unfold ExtendedCli.respond. rewrite E1, E2, E3, E4.
    unfold ExtendedCli.move.
    destruct (Extended.move cmd (ExtendedCli.cube s)) as [[err | p t e n] h']
      eqn:Hmove.
    + left. split; [exact Hkw |]. exists err.
      pose proof (move_error _ _ _ _ Hmove) as ->.
      split; [reflexivity |]. unfold onlyLogs, ExtendedCli.log. cbn. eauto 10.
    + right. split; [exact Hkw |]. exists p, t, e, n, h'.
      split; [reflexivity |].
      unfold moveReport, orderAfter.
      destruct t; [| destruct e].
      * unfold ExtendedCli.processExit, ExtendedCli.log. cbn.
        rewrite <- !app_assoc. reflexivity.
      * unfold ExtendedCli.processExit, ExtendedCli.log. cbn.
        rewrite <- !app_assoc. reflexivity.
      * rewrite cli_renderSlice. unfold ExtendedCli.log. cbn.
        rewrite <- !app_assoc. reflexivity.
Qed.

(** Only a command passed to [move] can change the engine: after "exit",
    "help", "view" or "map" the engine is the one before, and after any other
    command it is the engine [move] leaves (unchanged when [move] fails). *)
Theorem respond_engine cmd s :
  ExtendedCli.cube (ExtendedCli.respond cmd s)
  = if bool_decide (cmd ∈ keywords) then ExtendedCli.cube s
    else snd (Extended.move cmd (ExtendedCli.cube s)).
Proof.
  destruct (respond_cases cmd s)
    as [[-> ->] | [[Hin Hlog] | [(Hkw & e & Hmove & Hlog)
                                | (Hkw & p & t & e & n & h' & Hmove & ->)]]].
  - reflexivity.
  - rewrite bool_decide_eq_true_2
      by (unfold keywords; apply elem_of_cons; right; exact Hin).
    apply Hlog.
  - rewrite bool_decide_eq_false_2 by exact Hkw. rewrite Hmove. apply Hlog.
  - rewrite bool_decide_eq_false_2 by exact Hkw. rewrite Hmove. reflexivity.
Qed.

(** The process ends on exactly two occasions: the command "exit", and a
    successful move whose result has the trap flag or the exit flag. *)
Theorem respond_exits cmd s :
  ExtendedCli.status s = ExtendedCli.Running ->
  (ExtendedCli.status (ExtendedCli.respond cmd s) = ExtendedCli.Exited
   <-> cmd = "exit"%string
       \/ ((cmd ∉ keywords)
           /\ exists p t e n,
                fst (Extended.move cmd (ExtendedCli.cube s))
                = Extended.Moved p t e n
                /\ (t = true \/ e = true))).
Proof.
  intros Hrun.
  destruct (respond_cases cmd s)
    as [[-> ->] | [[Hin Hlog] | [(Hkw & err & Hmove & Hlog)
                                | (Hkw & p & t & e & n & h' & Hmove & ->)]]].
  - split; [auto | reflexivity].
  - destruct Hlog as (_ & _ & -> & _). rewrite Hrun. split; [discriminate |].
    intros [-> | [Hkw _]]; [not_list_member Hin |].
    exfalso. apply Hkw. unfold keywords. apply elem_of_cons. right. exact Hin.
  - destruct Hlog as (_ & _ & -> & _). rewrite Hrun. split; [discriminate |].
    intros [-> | (_ & p & t & e & n & Hres & _)].
    + exfalso. apply Hkw. unfold keywords. list_member.
    + rewrite Hmove in Hres. discriminate.
  - cbn. rewrite Hmove, Hrun. cbn. split.
    + intros Hex. right. split; [exact Hkw |]. exists p, t, e, n.
      split; [reflexivity |]. destruct t, e; auto; discriminate.
    + intros [-> | (_ & p' & t' & e' & n' & [= <- <- <- <-] & Hflags)].
      * exfalso. apply Hkw. unfold keywords. list_member.
      * destruct Hflags as [-> | ->]; [reflexivity |].
        destruct t; reflexivity.
Qed.

Lemma respond_exits_witness :
  ExtendedCli.status
    (ExtendedCli.respond "xp"
       {| ExtendedCli.cube :=
            Extended.Build 4 2 (Coord 2 2 2 2) (Coord 1 0 0 0) ∅;
          ExtendedCli.order := []; ExtendedCli.console := [];
          ExtendedCli.status := ExtendedCli.Running |})
  = ExtendedCli.Exited.
Proof.
  apply respond_exits; [reflexivity |].
  right. split.
  - apply (bool_decide_unpack _). vm_compute. exact I.
  - exists (Coord 2 0 0 0), true, false, 3. split; [vm_compute; reflexivity |].
    left. reflexivity.
Defined.

(** A move into a trap is reported as death and ends the process, whether
    or not the trapped cell is the exit: when the result has both flags, the
    exit line is not printed. *)
Theorem respond_trap_beats_exit cmd s p e n h' :
  (cmd ∉ keywords) ->
  Extended.move cmd (ExtendedCli.cube s) = (Extended.Moved p true e n, h') ->
  ExtendedCli.console (ExtendedCli.respond cmd s)
  = ExtendedCli.console s ++ deathReport p n
  /\ ExtendedCli.status (ExtendedCli.respond cmd s) = ExtendedCli.Exited
  /\ ExtendedCli.cube (ExtendedCli.respond cmd s) = h'.
Proof.
  intros Hkw Hmove.
  destruct (respond_cases cmd s)
    as [[-> _] | [[Hin _] | [(_ & err & Hmove' & _)
                            | (_ & p' & t' & e' & n' & h'' & Hmove' & ->)]]].
  - exfalso. apply Hkw. unfold keywords. list_member.
  - exfalso. apply Hkw. unfold keywords. apply elem_of_cons. right. exact Hin.
  - rewrite Hmove in Hmove'. discriminate.
  - rewrite Hmove in Hmove'. injection Hmove' as <- <- <- <- <-.
    cbn. auto.
Qed.

Lemma respond_trap_beats_exit_witness :
  ExtendedCli.console
    (ExtendedCli.respond "xp"
       {| ExtendedCli.cube :=
            Extended.Build 4 1 (Coord 2 2 2 2) (Coord 1 2 2 2) ∅;
          ExtendedCli.order := []; ExtendedCli.console := [];
          ExtendedCli.status := ExtendedCli.Running |})
  = [] ++ deathReport (Coord 2 2 2 2) 2.
Proof.
  refine (proj1 (respond_trap_beats_exit "xp"%string
            {| ExtendedCli.cube :=
                 Extended.Build 4 1 (Coord 2 2 2 2) (Coord 1 2 2 2) ∅;
               ExtendedCli.order := []; ExtendedCli.console := [];
               ExtendedCli.status := ExtendedCli.Running |}
            (Coord 2 2 2 2) true 2
            (Extended.Build 4 2 (Coord 2 2 2 2) (Coord 2 2 2 2)
               {[ "2,2,2,2"%string := Extended.Visit true 2 ]}) _ _)).
  - apply (bool_decide_unpack _). vm_compute. exact I.
  - vm_compute. reflexivity.
Defined.

(** ** Sessions of the extended script *)

Lemma onlyLogs_invariant s s' :
  onlyLogs s s' -> sessionInvariant s -> sessionInvariant s'.
Proof.
  intros (Hc & Ho & Hs & _). unfold sessionInvariant.
  rewrite Hc, Ho, Hs. auto.
Qed.

Lemma respond_invariant cmd s :
  ExtendedCli.status s = ExtendedCli.Running ->
  sessionInvariant s -> sessionInvariant (ExtendedCli.respond cmd s).
Proof.
  intros Hrun Hinv.
  destruct (respond_cases cmd s)
    as [[-> ->] | [[Hin Hlog] | [(Hkw & err & Hmove & Hlog)
                                | (Hkw & p & t & e & n & h' & Hmove & ->)]]].
  - destruct Hinv as (Hnd & Hdom & _).
    unfold sessionInvariant, ExtendedCli.processExit. cbn.
    split; [exact Hnd |]. split; [exact Hdom | discriminate].
  - eapply onlyLogs_invariant; eassumption.
  - eapply onlyLogs_invariant; eassumption.
  - destruct Hinv as (Hnd & Hdom & Hsafe). specialize (Hsafe Hrun).
    apply move_moved in Hmove.
    destruct Hmove as (d & _ & _ & _ & -> & Ht & He & _).
    unfold sessionInvariant, orderAfter. cbn.
    split; [| split].
    + case_decide as Hk; [exact Hnd |].
      apply NoDup_app. split; [exact Hnd |]. split; [| apply NoDup_singleton].
      intros k Hk1 Hk2. apply list_elem_of_singleton in Hk2. subst k.
      apply Hk, Hdom, Hk1.
    + intros k. rewrite lookup_insert_is_Some.
      case_decide as Hk.
      * rewrite Hdom. split; [| intros [<- | [_ H]]; assumption].
        intros Hsome. destruct (decide (key p = k)); auto.
      * rewrite elem_of_app, list_elem_of_singleton, Hdom. split.
        -- intros [Hsome | ->]; [| auto].
           destruct (decide (key p = k)); auto.
        -- intros [<- | [_ Hsome]]; auto.
    + rewrite Hrun. destruct t; [discriminate |]. destruct e; [discriminate |].
      intros _ k v Hkv. apply lookup_insert_Some in Hkv.
      destruct Hkv as [[<- <-] | [_ Hkv]]; [| apply Hsafe; exact Hkv].
      cbn. unfold Extended.isTrap, committed in Ht. cbn in Ht.
      split; [symmetry; exact Ht |].
      intros Hkey. apply key_inj in Hkey. subst p.
      symmetry in He. assert (isExit (Extended.exit (ExtendedCli.cube s))
                                (Extended.exit (ExtendedCli.cube s)) = true)
        by (apply isExit_spec; reflexivity).
      congruence.
Qed.

Lemma prompt_invariant cmds s :
  sessionInvariant s -> sessionInvariant (ExtendedCli.prompt cmds s).
Proof.
  revert s. induction cmds as [| cmd cmds IH]; intros s Hinv; cbn;
    [exact Hinv |].
  destruct (ExtendedCli.status s) eqn:Hst; [| exact Hinv].
  apply IH, respond_invariant; assumption.
Qed.

Lemma main_invariant draws cmds s :
  ExtendedCli.main draws cmds = Some s -> sessionInvariant s.
Proof.
  unfold ExtendedCli.main.
  destruct (Extended.new 4 draws) as [[h rest] |] eqn:Hnew; [| discriminate].
  cbn. intros [= <-]. apply prompt_invariant.
  apply new_fields in Hnew. destruct Hnew as (_ & _ & _ & Hvis & _).
  eapply onlyLogs_invariant.
  - eapply onlyLogs_trans; [apply onlyLogs_log |].
    eapply onlyLogs_trans; [apply cli_printHelp |].
    apply cli_renderSlice_onlyLogs.
  - unfold sessionInvariant. cbn. rewrite Hvis.
    split; [constructor |]. split.
    + intros k. rewrite lookup_empty. split; [inversion 1 | intros [v Hv]; discriminate].
    + intros _ k v. rewrite lookup_empty. discriminate.
Qed.

(** While the game runs the memory holds no trap record and no record of
    the exit cell, because a move into a trap or onto the exit ends the
    process: the slice the script shows never has the known-trap marker. *)
Theorem running_session_never_shows_trap draws cmds s :
  ExtendedCli.main draws cmds = Some s ->
  ExtendedCli.status s = ExtendedCli.Running ->
  (forall k v,
     Extended.visited (ExtendedCli.cube s) !! k = Some v ->
     Extended.visit_trap v = false
     /\ k <> key (Extended.exit (ExtendedCli.cube s)))
  /\ (forall cx cy cz,
        Extended.marker (ExtendedCli.cube s)
          (w (Extended.position (ExtendedCli.cube s))) cx cy cz
        <> " X "%string).
Proof.
  intros Hmain Hrun. apply main_invariant in Hmain.
  destruct Hmain as (_ & _ & Hsafe). specialize (Hsafe Hrun).
  split; [exact Hsafe |].
  intros cx cy cz. unfold Extended.marker.
  repeat match goal with
         | |- context [if ?b then _ else _] =>
             lazymatch b with
             | Extended.visit_trap _ => fail
             | _ => destruct b; [discriminate |]
             end
         end.
  destruct (Extended.visited (ExtendedCli.cube s) !! _) as [v |] eqn:Hv;
    [| discriminate].
  destruct (Hsafe _ _ Hv) as [-> _]. discriminate.
Qed.

Lemma running_session_never_shows_trap_witness :
  exists s,
    ExtendedCli.main [1; 0; 0; 0] ["xp"; "up"; "map"; "xn"]%string = Some s
    /\ ExtendedCli.status s = ExtendedCli.Running
    /\ forall cx cy cz,
         Extended.marker (ExtendedCli.cube s)
           (w (Extended.position (ExtendedCli.cube s))) cx cy cz
         <> " X "%string.
Proof.
  assert (Hst : ExtendedCli.status
                <$> ExtendedCli.main [1; 0; 0; 0]
                      ["xp"; "up"; "map"; "xn"]%string
                = Some ExtendedCli.Running) by (vm_compute; reflexivity).
  destruct (ExtendedCli.main [1; 0; 0; 0] ["xp"; "up"; "map"; "xn"]%string)
    as [s |] eqn:Hmain; [| discriminate].
  injection Hst as Hst.
  exists s. split; [reflexivity |]. split; [exact Hst |].
  exact (proj2 (running_session_never_shows_trap _ _ s Hmain Hst)).
Defined.

(** [printMemory] lists the memory completely and without repetition: after
    its heading it prints one line for each visited cell, in the order of
    the first visits, so as many lines as the memory has keys. *)
Theorem printMemory_lists_memory draws cmds s :
  ExtendedCli.main draws cmds = Some s ->
  exists entries,
    ExtendedCli.console (ExtendedCli.printMemory s)
    = ExtendedCli.console s
      ++ ExtendedCli.Text (Extended.newline +:+ "🌫 Memory:") :: entries
    /\ length entries = base.size (Extended.visited (ExtendedCli.cube s))
    /\ (forall k v,
          Extended.visited (ExtendedCli.cube s) !! k = Some v ->
          ExtendedCli.Text (ExtendedCli.memoryLine k v) ∈ entries)
    /\ ExtendedCli.cube (ExtendedCli.printMemory s) = ExtendedCli.cube s.
Proof.
  intros Hmain. apply main_invariant in Hmain.
  destruct Hmain as (Hnd & Hdom & _).
  rewrite cli_printMemory. cbn. eexists. split; [reflexivity |].
  split; [| split; [| reflexivity]].
  - assert (Hlen : forall keys,
              (forall k, k ∈ keys ->
                 is_Some (Extended.visited (ExtendedCli.cube s) !! k)) ->
              length (omap (fun coord =>
                        (fun data =>
                           ExtendedCli.Text (ExtendedCli.memoryLine coord data))
                        <$> Extended.visited (ExtendedCli.cube s) !! coord) keys)
              = length keys).
    { induction keys as [| k keys IH]; intros Hall; cbn; [reflexivity |].
      destruct (Hall k ltac:(left)) as [v ->]. cbn.
      rewrite IH; [reflexivity |]. intros k' Hk'. apply Hall. right. exact Hk'. }
    rewrite Hlen by (intros k Hk; apply Hdom, Hk).
    rewrite <- size_dom.
    assert (Hset : dom (Extended.visited (ExtendedCli.cube s))
                   = list_to_set (ExtendedCli.order s)).
    { apply set_eq. intros k.
      rewrite elem_of_dom, elem_of_list_to_set, Hdom. reflexivity. }
    rewrite Hset, size_list_to_set by exact Hnd. reflexivity.
  - intros k v Hkv. apply list_elem_of_omap. exists k.
    split; [apply Hdom; eauto |]. rewrite Hkv. reflexivity.
Qed.

Lemma printMemory_lists_memory_witness :
  exists s entries,
    ExtendedCli.main [1; 0; 0; 0] ["xp"; "xn"; "yp"]%string = Some s
    /\ ExtendedCli.console (ExtendedCli.printMemory s)
       = ExtendedCli.console s
         ++ ExtendedCli.Text (Extended.newline +:+ "🌫 Memory:") :: entries
    /\ length entries = base.size (Extended.visited (ExtendedCli.cube s)).
Proof.
  destruct (ExtendedCli.main [1; 0; 0; 0] ["xp"; "xn"; "yp"]%string)
    as [s |] eqn:Hmain; [| vm_compute in Hmain; discriminate].
  destruct (printMemory_lists_memory _ _ s Hmain)
    as (entries & Hout & Hlen & _).
  exists s, entries. auto.
Defined.

(** ** Sessions of the minimal script *)

Lemma minimal_respond_cases trim input s :
  (input = "exit"%string
   /\ MinimalCli.cube (MinimalCli.respond trim input s) = MinimalCli.cube s
   /\ MinimalCli.status (MinimalCli.respond trim input s) = MinimalCli.Exited)
  \/ (input <> "exit"%string
      /\ exists error,
           Minimal.move (trim input) (MinimalCli.cube s)
           = (Minimal.Error error, MinimalCli.cube s)
           /\ MinimalCli.cube (MinimalCli.respond trim input s) = MinimalCli.cube s
           /\ MinimalCli.status (MinimalCli.respond trim input s)
              = MinimalCli.status s)
  \/ (input <> "exit"%string
      /\ exists p t e h',
           Minimal.move (trim input) (MinimalCli.cube s)
           = (Minimal.Moved p t e, h')
           /\ MinimalCli.cube (MinimalCli.respond trim input s) = h'
           /\ MinimalCli.status (MinimalCli.respond trim input s)
              = (if t || e then MinimalCli.Exited else MinimalCli.status s)
           /\ (t = true ->
               MinimalCli.console (MinimalCli.respond trim input s)
               = MinimalCli.console s
                 ++ [ MinimalCli.TextAndPosition "📍 Position:" p;
                      MinimalCli.Text
                        "💀 The room was trapped. You did not survive." ])).
Proof.
  unfold MinimalCli.respond.
  destruct (String.eqb_spec input "exit") as [-> | Hne].
  - left. auto.
  - right.
    destruct (Minimal.move (trim input) (MinimalCli.cube s))
      as [[err | p t e] h'] eqn:Hmove.
    + left. split; [exact Hne |]. exists err.
      pose proof (minimal_move_error _ _ _ _ Hmove) as ->. auto.
    + right. split; [exact Hne |]. exists p, t, e, h'.
      split; [reflexivity |].
      destruct t; [| destruct e]; cbn; repeat split; try discriminate.
      intros _. rewrite <- app_assoc. reflexivity.
Qed.

(** In the minimal script too the process ends exactly on the line "exit"
    (compared before trimming) and on a successful move with the trap or the
    exit flag; the engine changes only through [move] on the trimmed line;
    and a move into a trap is reported as death even on the exit cell. *)
Theorem minimal_respond_exits trim input s :
  MinimalCli.status s = MinimalCli.Running ->
  (MinimalCli.status (MinimalCli.respond trim input s) = MinimalCli.Exited
   <-> input = "exit"%string
       \/ exists p t e,
            fst (Minimal.move (trim input) (MinimalCli.cube s))
            = Minimal.Moved p t e
            /\ (t = true \/ e = true))
  /\ MinimalCli.cube (MinimalCli.respond trim input s)
     = (if String.eqb input "exit" then MinimalCli.cube s
        else snd (Minimal.move (trim input) (MinimalCli.cube s)))
  /\ (forall p e h',
        input <> "exit"%string ->
        Minimal.move (trim input) (MinimalCli.cube s)
        = (Minimal.Moved p true e, h') ->
        MinimalCli.console (MinimalCli.respond trim input s)
        = MinimalCli.console s
          ++ [ MinimalCli.TextAndPosition "📍 Position:" p;
               MinimalCli.Text "💀 The room was trapped. You did not survive." ]).
Proof.
  intros Hrun.
  destruct (minimal_respond_cases trim input s)
    as [(-> & Hc & Hs) | [(Hne & err & Hmove & Hc & Hs)
                         | (Hne & p & t & e & h' & Hmove & Hc & Hs & Hout)]].
  - split; [split; auto |]. split; [exact Hc |]. intros p e h' Hne. congruence.
  - rewrite Hs, Hrun, Hc, Hmove.
    destruct (String.eqb_spec input "exit") as [| _]; [contradiction |].
    split; [| split; [reflexivity | intros; discriminate]].
    split; [discriminate |].
    intros [-> | (p & t & e & Hres & _)]; [contradiction | discriminate].
  - rewrite Hs, Hrun, Hc, Hmove.
    destruct (String.eqb_spec input "exit") as [| _]; [contradiction |].
    split; [| split; [reflexivity |]].
    + cbn. split.
      * intros Hex. right. exists p, t, e. split; [reflexivity |].
        destruct t, e; auto; discriminate.
      * intros [-> | (p' & t' & e' & [= <- <- <-] & Hflags)];
          [contradiction |].
        destruct Hflags as [-> | ->]; [reflexivity | destruct t; reflexivity].
    + intros p' e' h'' _ [= <- Ht <- <-]. apply Hout. exact Ht.
Qed.

Lemma minimal_respond_exits_witness :
  MinimalCli.status
    (MinimalCli.respond (fun line => line) "zp"
       {| MinimalCli.cube := Minimal.Build 5 ∅ (Coord 2 2 2 2) (Coord 1 1 1 1);
          MinimalCli.console := []; MinimalCli.status := MinimalCli.Running |})
  = MinimalCli.Exited.
Proof.
  apply (proj1 (minimal_respond_exits (fun line => line) "zp"%string
                  {| MinimalCli.cube :=
                       Minimal.Build 5 ∅ (Coord 2 2 2 2) (Coord 1 1 1 1);
                     MinimalCli.console := [];
                     MinimalCli.status := MinimalCli.Running |} eq_refl)).
  right. exists (Coord 1 1 2 1), true, false.
  split; [vm_compute; reflexivity | left; reflexivity].
Defined.

Lemma minimal_respond_invariant trim input s :
  MinimalCli.status s = MinimalCli.Running ->
  minimalSessionInvariant s ->
  minimalSessionInvariant (MinimalCli.respond trim input s).
Proof.
  intros Hrun Hinv. specialize (Hinv Hrun). unfold minimalSessionInvariant.
  destruct (minimal_respond_cases trim input s)
    as [(-> & Hc & Hs) | [(Hne & err & Hmove & Hc & Hs)
                         | (Hne & p & t & e & h' & Hmove & Hc & Hs & _)]];
    rewrite Hc, Hs.
  - discriminate.
  - intros _. exact Hinv.
  - rewrite Hrun. destruct t; [discriminate |]. destruct e; [discriminate |].
    intros _ k Hk. apply minimal_move_moved in Hmove.
    destruct Hmove as (d & _ & _ & Hin & -> & Ht & He). cbn in *.
    apply elem_of_union in Hk. destruct Hk as [Hk | Hk].
    + apply elem_of_singleton in Hk. subst k. exists p.
      split; [reflexivity |]. split; [exact Hin |].
      split; [symmetry; exact Ht |].
      intros ->. symmetry in He.
      assert (isExit (Minimal.exit (MinimalCli.cube s))
                (Minimal.exit (MinimalCli.cube s)) = true)
        by (apply isExit_spec; reflexivity).
      congruence.
    + apply Hinv. exact Hk.
Qed.

(** While the minimal game runs, every key of the visited set is the key of
    a cell of the grid that is neither a trap nor the exit. *)
Theorem minimal_running_session_safe trim draws inputs s :
  MinimalCli.main trim draws inputs = Some s ->
  MinimalCli.status s = MinimalCli.Running ->
  forall k, k ∈ Minimal.visited (MinimalCli.cube s) ->
    exists c, k = key c
              /\ isInside 5 c = true
              /\ ~ Z.prime (x c + y c + z c + w c)
              /\ c <> getCenter 5.
Proof.
  unfold MinimalCli.main.
  destruct (Minimal.new 5 draws) as [[h rest] |] eqn:Hnew; [| discriminate].
  cbn. intros [= <-].
  apply minimal_new_fields in Hnew. destruct Hnew as (Hsize & Hexit & Hvis & _).
  set (s0 := MinimalCli.log _ _).
  assert (Hinv0 : minimalSessionInvariant s0
                  /\ Minimal.size (MinimalCli.cube s0) = 5
                  /\ Minimal.exit (MinimalCli.cube s0) = getCenter 5).
  { unfold s0, minimalSessionInvariant. cbn. rewrite Hvis.
    split; [| auto]. intros _ k Hk. apply not_elem_of_empty in Hk. contradiction. }
  clearbody s0. revert s0 Hinv0.
  induction inputs as [| input inputs IH]; intros s0 (Hinv & Hsz & Hex) Hrun.
  - cbn in Hrun |- *. intros k Hk.
    destruct (Hinv Hrun k Hk) as (c & Hc & Hin & Htrap & Hne).
    exists c. rewrite Hsz in Hin. rewrite Hex in Hne.
    repeat split; try assumption.
    intros Hp. apply isPrime_spec in Hp. unfold Minimal.isTrap in Htrap.
    congruence.
  - cbn in Hrun |- *. destruct (MinimalCli.status s0) eqn:Hst.
    + apply IH; [| exact Hrun].
      split; [apply minimal_respond_invariant; assumption |].
      destruct (minimal_respond_cases trim input s0)
        as [(_ & -> & _) | [(_ & err & _ & -> & _)
                           | (_ & p & t & e & h' & Hmove & -> & _)]];
        [auto | auto |].
      apply minimal_move_moved in Hmove.
      destruct Hmove as (d & _ & _ & _ & -> & _). cbn. auto.
    + congruence.
Qed.

Lemma minimal_running_session_safe_witness :
  exists s,
    MinimalCli.main (fun line => line) [1; 0; 0; 0] ["xn"; "north"]%string
    = Some s
    /\ MinimalCli.status s = MinimalCli.Running
    /\ forall k, k ∈ Minimal.visited (MinimalCli.cube s) ->
         exists c, k = key c /\ isInside 5 c = true
                   /\ ~ Z.prime (x c + y c + z c + w c) /\ c <> getCenter 5.
Proof.
  eexists. split; [vm_compute; reflexivity |].
  split; [reflexivity |].
  refine (minimal_running_session_safe (fun line => line) [1; 0; 0; 0]
            ["xn"; "north"]%string _ _ _); vm_compute; reflexivity.
Defined.

(** The engine of a session is the engine of its commands: whatever the
    user types, the engine the script holds is the freshly constructed one
    after [move] on some of the typed commands, in the order typed, none of
    them a keyword of the prompt. *)
Theorem session_engine_is_run draws cmds s :
  ExtendedCli.main draws cmds = Some s ->
  exists h0 rest dirs,
    Extended.new 4 draws = Some (h0, rest)
    /\ sublist dirs cmds
    /\ Forall (fun dir => dir ∉ keywords) dirs
    /\ ExtendedCli.cube s = Extended.run dirs h0.
Proof.
  unfold ExtendedCli.main.
  destruct (Extended.new 4 draws) as [[h0 rest] |] eqn:Hnew; [| discriminate].
  cbn. intros [= <-]. exists h0, rest.
  set (s0 := ExtendedCli.renderSlice _).
  assert (Hs0 : ExtendedCli.cube s0 = h0).
  { assert (Hlogs : onlyLogs
                      {| ExtendedCli.cube := h0; ExtendedCli.order := [];
                         ExtendedCli.console := [];
                         ExtendedCli.status := ExtendedCli.Running |} s0).
    { unfold s0. eapply onlyLogs_trans; [apply onlyLogs_log |].
      eapply onlyLogs_trans; [apply cli_printHelp |].
      apply cli_renderSlice_onlyLogs. }
    destruct Hlogs as (Hc & _). exact Hc. }
  clearbody s0. subst h0.
  assert (Hgen : forall cmds s,
    exists dirs, sublist dirs cmds
                 /\ Forall (fun dir => dir ∉ keywords) dirs
                 /\ ExtendedCli.cube (ExtendedCli.prompt cmds s)
                    = Extended.run dirs (ExtendedCli.cube s)).
  { clear. intros cmds. induction cmds as [| cmd cmds IH]; intros s; cbn.
    - exists []. split; [constructor |]. split; [constructor | reflexivity].
    - destruct (ExtendedCli.status s).
      + destruct (IH (ExtendedCli.respond cmd s)) as (dirs & Hsub & Hkw & ->).
        rewrite respond_engine. case_bool_decide as Hin.
        * exists dirs. split; [apply sublist_cons; exact Hsub | auto].
        * exists (cmd :: dirs). split; [apply sublist_skip; exact Hsub |].
          split; [constructor; assumption | reflexivity].
      + exists []. split; [apply sublist_nil_l |].
        split; [constructor | reflexivity]. }
  destruct (Hgen cmds s0) as (dirs & Hsub & Hkw & Heq).
  exists dirs. auto.
Qed.

Lemma session_engine_is_run_witness :
  exists s h0 rest dirs,
    ExtendedCli.main [1; 0; 0; 0] ["xp"; "map"; "xn"]%string = Some s
    /\ Extended.new 4 [1; 0; 0; 0] = Some (h0, rest)
    /\ sublist dirs ["xp"; "map"; "xn"]%string
    /\ ExtendedCli.cube s = Extended.run dirs h0.
Proof.
  destruct (ExtendedCli.main [1; 0; 0; 0] ["xp"; "map"; "xn"]%string)
    as [s |] eqn:Hmain; [| vm_compute in Hmain; discriminate].
  destruct (session_engine_is_run _ _ s Hmain)
    as (h0 & rest & dirs & Hnew & Hsub & _ & Hrun).
  exists s, h0, rest, dirs. auto.
Defined.
